(** * extract_rgb_features.py: channel means, filename labels and the directory run

    A shallow embedding of [RGB-model/R-code-github/extract_rgb_features.py].

    The script has three functions:
    - [extract_rgb_features]: reads an image with OpenCV and returns the mean of
      each of the three stored channels (blue, green, red);
    - [get_concentration_label]: [re.search] on the file name, first group;
    - [process_images_in_directory]: [os.walk] over a root directory, one
      record per image file that is processed without an exception, then a
      CSV written when at least one record exists.

    Python exceptions are values of [exn]; a computation that mutates the
    local list [data], reads files, prints or writes the CSV is a function
    from [state] to an [outcome] and a new [state], and the state survives a
    raised exception, as it does in Python.

    Library code is modelled as follows.
    - [posixpath] ([os.path.join], [normpath], [abspath], [relpath]) and
      [pathlib.PurePath.suffix] are transcribed from CPython 3.12.
    - [os.walk] is the top-down walk of a directory tree (no symbolic links).
    - [cv2.imread] is a parameter: the decoder applied to the file system.
      [numpy.mean] is the exact rational mean; the float64 rounding of the
      quotient is not modelled.
    - [re.search] is a parameter of the script; [Re] implements it for a
      fragment of the pattern syntax, with a parser and a backtracking
      matcher that is proved to find a match exactly when some part of the
      text belongs to the language of the pattern. *)

From Stdlib Require Import List String Ascii Bool Arith ZArith QArith Qcanon Lia.
From Stdlib Require Import DecimalString Permutation.
Import ListNotations.

Close Scope Qc_scope.
Close Scope Q_scope.
Open Scope string_scope.
Open Scope list_scope.

Notation "a +++ b" := (String.append a b) (at level 60, right associativity).

(** ** Python values and exceptions *)

(** The exception classes that the modelled code can raise; all of them are
    subclasses of [Exception].  [str_exn] is [str(e)]. *)
Inductive exn : Type :=
| ValueError (msg : string)
| IndexError (msg : string)
| re_error (msg : string).

Definition str_exn (e : exn) : string :=
  match e with
  | ValueError msg => msg
  | IndexError msg => msg
  | re_error msg => msg
  end.

Inductive outcome (A : Type) : Type :=
| Return (a : A)
| Raise (e : exn).
Arguments Return {A} a.
Arguments Raise {A} e.

Definition obind {A B : Type} (o : outcome A) (f : A -> outcome B) : outcome B :=
  match o with
  | Return a => f a
  | Raise e => Raise e
  end.

(** ** Strings *)

Module Str.

Definition slash : ascii := "/"%char.
Definition dot : ascii := "."%char.

(** [s.startswith(c)] and [s.endswith(c)] for a one-character [c]. *)
Definition startswith (c : ascii) (s : string) : bool :=
  match s with
  | EmptyString => false
  | String a _ => Ascii.eqb a c
  end.

Fixpoint endswith (c : ascii) (s : string) : bool :=
  match s with
  | EmptyString => false
  | String a EmptyString => Ascii.eqb a c
  | String _ s' => endswith c s'
  end.

Definition is_empty (s : string) : bool :=
  match s with
  | EmptyString => true
  | String _ _ => false
  end.

(** [s.split(c)]: the pieces between the occurrences of [c]; never the
    empty list. *)
Fixpoint split (c : ascii) (s : string) : list string :=
  match s with
  | EmptyString => [EmptyString]
  | String a s' =>
      if Ascii.eqb a c then EmptyString :: split c s'
      else match split c s' with
           | [] => [String a EmptyString]
           | piece :: pieces => String a piece :: pieces
           end
  end.

(** [s.rfind(c)]: the index of the last occurrence of [c], if any. *)
Fixpoint rfind (c : ascii) (s : string) : option nat :=
  match s with
  | EmptyString => None
  | String a s' =>
      match rfind c s' with
      | Some i => Some (S i)
      | None => if Ascii.eqb a c then Some 0 else None
      end
  end.

(** [s[i:]]. *)
Fixpoint drop (i : nat) (s : string) : string :=
  match i, s with
  | 0, _ => s
  | S _, EmptyString => EmptyString
  | S j, String _ s' => drop j s'
  end.

(** [s.lower()] on the ASCII letters; every other byte is kept.  No
    character outside ASCII lowercases to one of the letters of the
    recognised extensions, so this decides the same membership test. *)
Definition lower_ascii (a : ascii) : ascii :=
  let n := nat_of_ascii a in
  if ((65 <=? n) && (n <=? 90))%nat then ascii_of_nat (n + 32) else a.

Fixpoint lower (s : string) : string :=
  match s with
  | EmptyString => EmptyString
  | String a s' => String (lower_ascii a) (lower s')
  end.

Definition mem (s : string) (l : list string) : bool :=
  existsb (String.eqb s) l.

End Str.

(** ** posixpath and pathlib *)

Module PosixPath.

Definition sep : string := "/".
Definition curdir : string := ".".
Definition pardir : string := "..".

Definition isabs (s : string) : bool := Str.startswith Str.slash s.

(** One step of the loop of [posixpath.join]: [path] joined with the
    next argument [b]. *)
Definition join (path b : string) : string :=
  if Str.startswith Str.slash b then b
  else if Str.is_empty path || Str.endswith Str.slash path then path +++ b
  else path +++ sep +++ b.

(** [initial_slashes] of [normpath]: 0, 1, or 2 for exactly two leading
    slashes. *)
Definition initial_slashes (path : string) : nat :=
  match path with
  | String a (String b (String c _)) =>
      if Ascii.eqb a Str.slash then
        if Ascii.eqb b Str.slash then
          if Ascii.eqb c Str.slash then 1 else 2
        else 1
      else 0
  | String a (String b EmptyString) =>
      if Ascii.eqb a Str.slash then
        if Ascii.eqb b Str.slash then 2 else 1
      else 0
  | String a EmptyString => if Ascii.eqb a Str.slash then 1 else 0
  | EmptyString => 0
  end.

(** The body of the loop [for comp in comps] of [normpath]; [new_comps]
    grows at its end. *)
Definition norm_step (initial : nat) (new_comps : list string) (comp : string)
  : list string :=
  if Str.is_empty comp || String.eqb comp curdir then new_comps
  else if negb (String.eqb comp pardir)
          || (Nat.eqb initial 0 && Nat.eqb (List.length new_comps) 0)
          || String.eqb (List.last new_comps EmptyString) pardir
  then new_comps ++ [comp]
  else List.removelast new_comps.

Definition norm_loop (initial : nat) (comps : list string) : list string :=
  fold_left (norm_step initial) comps [].

Fixpoint slashes (n : nat) : string :=
  match n with
  | 0 => EmptyString
  | S m => String Str.slash (slashes m)
  end.

Definition normpath (path : string) : string :=
  if Str.is_empty path then curdir
  else
    let initial := initial_slashes path in
    let comps := norm_loop initial (Str.split Str.slash path) in
    let path' := slashes initial +++ String.concat sep comps in
    if Str.is_empty path' then curdir else path'.

Definition abspath (cwd path : string) : string :=
  normpath (if isabs path then path else join cwd path).

(** [genericpath.commonprefix] of two lists of components. *)
Fixpoint commonprefix (l1 l2 : list string) : list string :=
  match l1, l2 with
  | a :: l1', b :: l2' => if String.eqb a b then a :: commonprefix l1' l2' else []
  | _, _ => []
  end.

(** [join] applied to the elements of [rel_list], a list that is not
    empty. *)
Definition join_all (l : list string) : string :=
  match l with
  | [] => EmptyString
  | a :: p => fold_left join p a
  end.

Definition nonempty_pieces (s : string) : list string :=
  filter (fun x => negb (Str.is_empty x)) (Str.split Str.slash s).

(** [os.path.relpath(path, start)]; [cwd] is [os.getcwd()]. *)
Definition relpath (cwd path start : string) : outcome string :=
  if Str.is_empty path then Raise (ValueError "no path specified")
  else
    let start_list := nonempty_pieces (abspath cwd start) in
    let path_list := nonempty_pieces (abspath cwd path) in
    let i := List.length (commonprefix start_list path_list) in
    let rel_list :=
      repeat pardir (List.length start_list - i) ++ skipn i path_list in
    match rel_list with
    | [] => Return curdir
    | _ => Return (join_all rel_list)
    end.

(** [pathlib.PurePath(name).suffix] for a [name] without separators:
    the text from the last dot on, when that dot is neither the first
    nor the last character. *)
Definition suffix (name : string) : string :=
  match Str.rfind Str.dot name with
  | Some i =>
      if ((0 <? i) && (i <? String.length name - 1))%nat then Str.drop i name
      else EmptyString
  | None => EmptyString
  end.

End PosixPath.

(** ** OpenCV images and numpy means *)

Module Cv.

(** A decoded colour image is an array of shape (rows, columns, 3) of
    8-bit values; a [pixel] holds [image[y, x, 0]], [image[y, x, 1]] and
    [image[y, x, 2]] in that order. *)
Definition pixel : Type := (Z * Z * Z)%type.
Definition image : Type := list (list pixel).
Definition channel : Type := list (list Z).

(** OpenCV's decoder stores a pixel of red [r], green [g] and blue [b] as
    blue, green, red. *)
Definition of_rgb (r g b : Z) : pixel := (b, g, r).

(** An image of [h] rows and [w] columns of one colour, as decoded. *)
Definition solid (h w : nat) (r g b : Z) : image :=
  repeat (repeat (of_rgb r g b) w) h.

(** [cv2.split]: the planes [image[:, :, 0]], [image[:, :, 1]] and
    [image[:, :, 2]]. *)
Definition split (img : image) : channel * channel * channel :=
  (map (map (fun p : pixel => fst (fst p))) img,
   map (map (fun p : pixel => snd (fst p))) img,
   map (map (fun p : pixel => snd p)) img).

Definition total (c : channel) : Z := fold_right Z.add 0%Z (List.concat c).
Definition size (c : channel) : nat := List.length (List.concat c).

(** [numpy.mean] of a plane: the sum of its elements over their number,
    as an exact rational in lowest terms.  [cv2.imread] never returns an
    array without elements. *)
Definition mean (c : channel) : Qc :=
  Q2Qc (Qmake (total c) (Pos.of_nat (size c))).

End Cv.

(** ** Match objects *)

(** What [re.search] returns on a match: the text of the whole match and,
    for each capturing group of the pattern, its text or [None] when the
    group took no part in the match. *)
Record Match : Type := mkMatch {
  group0 : string;
  groups : list (option string)
}.

(** [match.group(n)]. *)
Definition group (m : Match) (n : nat) : outcome (option string) :=
  match n with
  | 0 => Return (Some (group0 m))
  | S i =>
      match nth_error (groups m) i with
      | Some g => Return g
      | None => Raise (IndexError "no such group")
      end
  end.

(** ** A fragment of Python's regular expressions *)

(** The patterns covered are built from ASCII literals, escaped
    punctuation, character sets of ASCII characters and ranges, capturing
    groups, alternation and the greedy repeats [*], [+] and [?] applied to
    an expression that cannot match the empty string.  On these patterns
    matching byte by byte and matching character by character agree on
    UTF-8 text.  Any other pattern is reported as [Unsupported]: the model
    says nothing about it. *)
Module Re.

Inductive regex : Type :=
| Eps
| Lit (c : ascii)
| CharSet (ranges : list (ascii * ascii))
| Cat (r1 r2 : regex)
| Alt (r1 r2 : regex)
| Star (r : regex)
| Group (n : nat) (r : regex).

Inductive parsed (A : Type) : Type :=
| Ok (a : A)
| Invalid (msg : string) (pos : nat)
| Unsupported.
Arguments Ok {A} a.
Arguments Invalid {A} msg pos.
Arguments Unsupported {A}.

(** The parser's position: the text still to read, its offset in the
    pattern, and the number of the next capturing group. *)
Record cursor : Type := mkCursor {
  rest : list ascii;
  pos : nat;
  next_group : nat
}.

Definition advance (k : nat) (cu : cursor) : cursor :=
  mkCursor (skipn k (rest cu)) (pos cu + k) (next_group cu).

Definition code (a : ascii) : nat := nat_of_ascii a.

Definition is_ascii (a : ascii) : bool := (code a <? 128)%nat.

Definition is_alnum (a : ascii) : bool :=
  let n := code a in
  (((48 <=? n) && (n <=? 57)) || ((65 <=? n) && (n <=? 90))
   || ((97 <=? n) && (n <=? 122)))%nat.

Definition is_repeat (a : ascii) : bool :=
  existsb (Ascii.eqb a) ["*"; "+"; "?"; "{"]%char.

Fixpoint nullable (r : regex) : bool :=
  match r with
  | Eps => true
  | Lit _ => false
  | CharSet _ => false
  | Cat r1 r2 => nullable r1 && nullable r2
  | Alt r1 r2 => nullable r1 || nullable r2
  | Star _ => true
  | Group _ r1 => nullable r1
  end.

Definition cat (r1 r2 : regex) : regex :=
  match r2 with
  | Eps => r1
  | _ => Cat r1 r2
  end.

(** The items of a character set, after the opening bracket, up to and
    including the closing one.  [start] is the offset of the opening
    bracket. *)
Fixpoint parse_set (start : nat) (s : list ascii) (p : nat)
  (acc : list (ascii * ascii)) : parsed (list (ascii * ascii) * nat * nat) :=
  let plain (c : ascii) : bool :=
    is_ascii c && negb (existsb (Ascii.eqb c) ["\"; "["; "]"]%char) in
  match s with
  | [] => Invalid "unterminated character set" start
  | c :: s1 =>
      if Ascii.eqb c "]" then Ok (acc, List.length s1, S p)
      else if negb (plain c) then Unsupported
      else
        match s1 with
        | d :: s2 =>
            if Ascii.eqb d "-" then
              match s2 with
              | e :: s3 =>
                  if Ascii.eqb e "]" then
                    Ok (acc ++ [(c, c); (d, d)], List.length s3, p + 3)
                  else if negb (plain e) then Unsupported
                  else if (code e <? code c)%nat then
                    Invalid ("bad character range " +++ String c (String d (String e "")))
                            p
                  else parse_set start s3 (p + 3) (acc ++ [(c, e)])
              | [] => Invalid "unterminated character set" start
              end
            else parse_set start s1 (S p) (acc ++ [(c, c)])
        | [] => Invalid "unterminated character set" start
        end
  end.

(** A repeat sign after the expression [r] that was just read. *)
Definition parse_repeat (r : regex) (cu : cursor) : parsed (regex * cursor) :=
  match rest cu with
  | q :: s1 =>
      if is_repeat q then
        if Ascii.eqb q "{" then Unsupported
        else if nullable r then Unsupported
        else
          match s1 with
          | q2 :: _ => if is_repeat q2 then Unsupported else
              if Ascii.eqb q "*" then Ok (Star r, advance 1 cu)
              else if Ascii.eqb q "+" then Ok (Cat r (Star r), advance 1 cu)
              else Ok (Alt r Eps, advance 1 cu)
          | [] =>
              if Ascii.eqb q "*" then Ok (Star r, advance 1 cu)
              else if Ascii.eqb q "+" then Ok (Cat r (Star r), advance 1 cu)
              else Ok (Alt r Eps, advance 1 cu)
          end
      else Ok (r, cu)
  | [] => Ok (r, cu)
  end.

(** One item of a sequence: an atom and its optional repeat.  [sub]
    parses the inside of a group. *)
Definition parse_item (sub : cursor -> parsed (regex * cursor)) (cu : cursor)
  : parsed (regex * cursor) :=
  match rest cu with
  | [] => Ok (Eps, cu)
  | c :: s1 =>
      if Ascii.eqb c "(" then
        match s1 with
        | "?"%char :: _ => Unsupported
        | _ =>
            let n := next_group cu in
            match sub (mkCursor s1 (S (pos cu)) (S n)) with
            | Ok (r, cu1) =>
                match rest cu1 with
                | ")"%char :: _ => parse_repeat (Group n r) (advance 1 cu1)
                | _ => Invalid "missing ), unterminated subpattern" (pos cu)
                end
            | Invalid msg p => Invalid msg p
            | Unsupported => Unsupported
            end
        end
      else if Ascii.eqb c "[" then
        match s1 with
        | "^"%char :: _ => Unsupported
        | "]"%char :: _ => Unsupported
        | _ =>
            match parse_set (pos cu) s1 (S (pos cu)) [] with
            | Ok (ranges, remaining, p) =>
                parse_repeat (CharSet ranges)
                  (mkCursor (skipn (List.length s1 - remaining) s1) p
                     (next_group cu))
            | Invalid msg p => Invalid msg p
            | Unsupported => Unsupported
            end
        end
      else if Ascii.eqb c "\" then
        match s1 with
        | [] => Unsupported
        | e :: _ =>
            if is_ascii e && negb (is_alnum e)
            then parse_repeat (Lit e) (advance 2 cu)
            else Unsupported
        end
      else if existsb (Ascii.eqb c) ["*"; "+"; "?"]%char then
        Invalid "nothing to repeat" (pos cu)
      else if existsb (Ascii.eqb c) ["."; "^"; "$"; "{"]%char then Unsupported
      else if negb (is_ascii c) then Unsupported
      else parse_repeat (Lit c) (advance 1 cu)
  end.

Definition ends_sequence (cu : cursor) : bool :=
  match rest cu with
  | [] => true
  | c :: _ => Ascii.eqb c ")" || Ascii.eqb c "|"
  end.

Fixpoint parse_seq (sub : cursor -> parsed (regex * cursor)) (fuel : nat)
  (cu : cursor) : parsed (regex * cursor) :=
  if ends_sequence cu then Ok (Eps, cu)
  else
    match fuel with
    | 0 => Unsupported
    | S n =>
        match parse_item sub cu with
        | Ok (r, cu1) =>
            match parse_seq sub n cu1 with
            | Ok (rs, cu2) => Ok (cat r rs, cu2)
            | other => other
            end
        | other => other
        end
    end.

Fixpoint parse_branches (seq : cursor -> parsed (regex * cursor)) (fuel : nat)
  (cu : cursor) : parsed (regex * cursor) :=
  match seq cu with
  | Ok (r1, cu1) =>
      match rest cu1, fuel with
      | "|"%char :: _, S n =>
          match parse_branches seq n (advance 1 cu1) with
          | Ok (r2, cu2) => Ok (Alt r1 r2, cu2)
          | other => other
          end
      | "|"%char :: _, 0 => Unsupported
      | _, _ => Ok (r1, cu1)
      end
  | other => other
  end.

Fixpoint parse_alt (fuel : nat) (cu : cursor) : parsed (regex * cursor) :=
  match fuel with
  | 0 => Unsupported
  | S n => parse_branches (parse_seq (parse_alt n) fuel) fuel cu
  end.

(** [re.compile]: the expression and its number of capturing groups. *)
Definition compile (pattern : string) : parsed (regex * nat) :=
  let s := list_ascii_of_string pattern in
  match parse_alt (S (List.length s)) (mkCursor s 0 1) with
  | Ok (r, cu) =>
      match rest cu with
      | [] => Ok (r, next_group cu - 1)
      | _ => Invalid "unbalanced parenthesis" (pos cu)
      end
  | Invalid msg p => Invalid msg p
  | Unsupported => Unsupported
  end.

(** *** Matching *)

(** The text captured so far by each group. *)
Definition captures : Type := list (option (list ascii)).

Fixpoint set_capture (n : nat) (v : list ascii) (c : captures) : captures :=
  match n, c with
  | _, [] => []
  | 0, _ :: c' => Some v :: c'
  | S m, x :: c' => x :: set_capture m v c'
  end.

Definition in_ranges (x : ascii) (ranges : list (ascii * ascii)) : bool :=
  existsb (fun '(lo, hi) => (code lo <=? code x)%nat && (code x <=? code hi)%nat)
          ranges.

(** [consumed s s1]: the part of [s] read when [s1] is what is left. *)
Definition consumed (s s1 : list ascii) : list ascii :=
  firstn (List.length s - List.length s1) s.

(** The loop of a greedy repeat of [body]: one more iteration first, which
    must consume something, then the rest of the pattern, [k].  [fuel]
    bounds the number of iterations; the length of [s] is enough. *)
Fixpoint iterate {X : Type}
  (body : list ascii -> captures -> (list ascii -> captures -> option X) -> option X)
  (fuel : nat) (s : list ascii) (c : captures)
  (k : list ascii -> captures -> option X) : option X :=
  match fuel with
  | 0 => k s c
  | S n =>
      match body s c
              (fun s1 c1 =>
                 if (List.length s1 <? List.length s)%nat
                 then iterate body n s1 c1 k else None) with
      | Some x => Some x
      | None => k s c
      end
  end.

(** The backtracking matcher.  [run r s c k] matches [r] at the start of
    [s] and hands what is left to the continuation [k]; the alternatives
    are tried in the order of Python's matcher: the left branch of a
    choice first, one more iteration of a repeat before stopping. *)
Fixpoint run {X : Type} (r : regex) (s : list ascii) (c : captures)
  (k : list ascii -> captures -> option X) {struct r} : option X :=
  match r with
  | Eps => k s c
  | Lit a =>
      match s with
      | x :: s1 => if Ascii.eqb x a then k s1 c else None
      | [] => None
      end
  | CharSet ranges =>
      match s with
      | x :: s1 => if in_ranges x ranges then k s1 c else None
      | [] => None
      end
  | Cat r1 r2 => run r1 s c (fun s1 c1 => run r2 s1 c1 k)
  | Alt r1 r2 =>
      match run r1 s c k with
      | Some x => Some x
      | None => run r2 s c k
      end
  | Star r1 => iterate (run r1) (List.length s) s c k
  | Group n r1 =>
      run r1 s c (fun s1 c1 => k s1 (set_capture (n - 1) (consumed s s1) c1))
  end.

(** The leftmost match: the first start position at which [r] matches. *)
Fixpoint scan (r : regex) (ngroups : nat) (s : list ascii)
  : option (list ascii * captures) :=
  match run r s (repeat None ngroups)
          (fun s1 c1 => Some (consumed s s1, c1)) with
  | Some m => Some m
  | None =>
      match s with
      | [] => None
      | _ :: s' => scan r ngroups s'
      end
  end.

Definition to_match (m : list ascii * captures) : Match :=
  mkMatch (string_of_list_ascii (fst m))
          (map (option_map string_of_list_ascii) (snd m)).

Definition string_of_nat (n : nat) : string :=
  DecimalString.NilEmpty.string_of_uint (Nat.to_uint n).

(** [re.search(pattern, text)] on the fragment; [None] outside it. *)
Definition search (pattern text : string) : option (outcome (option Match)) :=
  match compile pattern with
  | Ok (r, ngroups) =>
      Some (Return (option_map to_match
                      (scan r ngroups (list_ascii_of_string text))))
  | Invalid msg p =>
      Some (Raise (re_error (msg +++ " at position " +++ string_of_nat p)))
  | Unsupported => None
  end.

End Re.

(** ** The file system seen by [os.walk] *)

(** A directory: its subdirectories and the names of its other entries, in
    the order in which the operating system lists them. *)
#[warnings="-register-all"]
Inductive dir : Type :=
| Dir (subdirs : list (string * dir)) (files : list string).

(** The triples [(dirpath, dirnames, filenames)] of a top-down walk of the
    directory [d] found at [top]. *)
Fixpoint walk_dir (top : string) (d : dir)
  : list (string * list string * list string) :=
  match d with
  | Dir ds fs =>
      (top, map fst ds, fs)
        :: (fix walk_subdirs (l : list (string * dir)) :=
              match l with
              | [] => []
              | (name, sub) :: l' =>
                  walk_dir (PosixPath.join top name) sub ++ walk_subdirs l'
              end) ds
  end.

(** [os.walk(top)]; listing the empty path fails, and [os.walk] then yields
    nothing. *)
Definition os_walk (top : string) (d : dir)
  : list (string * list string * list string) :=
  if Str.is_empty top then [] else walk_dir top d.

(** ** Records, console output and program state *)

(** One dictionary appended to [data]; the keys are the field names. *)
Record ImageRecord : Type := mkImageRecord {
  filename : string;
  folder : string;
  Blue : Qc;
  Green : Qc;
  Red : Qc;
  Concentration_Label : option string
}.

(** A [pandas.DataFrame] built from a list of dictionaries. *)
Record table : Type := mkTable {
  columns : list string;
  rows : list ImageRecord
}.

Definition DataFrame (data : list ImageRecord) : table :=
  mkTable ["filename"; "folder"; "Blue"; "Green"; "Red"; "Concentration_Label"]
          data.

(** The lines printed by the script.  The numbers of a progress line are
    kept as values; the script prints them with two decimals. *)
Inductive line : Type :=
| Processed (path : string) (blue green red : Qc) (label : option string)
| Failed (text : string)
| Saved (output_csv : string)
| Count (n : nat)
| FormatExample
| Head (t : table)
| NotFound.

Record state : Type := mkState {
  data : list ImageRecord;
  opened : list string;
  stdout : list line;
  written : list (string * table)
}.

Definition initial_state : state := mkState [] [] [] [].

(** ** Computations with state and exceptions *)

Definition M (A : Type) : Type := state -> outcome A * state.

Definition ret {A : Type} (a : A) : M A := fun st => (Return a, st).

Definition raise {A : Type} (e : exn) : M A := fun st => (Raise e, st).

Definition bind {A B : Type} (m : M A) (f : A -> M B) : M B :=
  fun st =>
    match m st with
    | (Return a, st1) => f a st1
    | (Raise e, st1) => (Raise e, st1)
    end.

Definition lift {A : Type} (o : outcome A) : M A := fun st => (o, st).

(** [try: body  except Exception as e: handler(e)]. *)
Definition try_except (body : M unit) (handler : exn -> M unit) : M unit :=
  fun st =>
    match body st with
    | (Return tt, st1) => (Return tt, st1)
    | (Raise e, st1) => handler e st1
    end.

Declare Scope py_scope.
Delimit Scope py_scope with py.
Notation "x <- m ;; k" := (bind m (fun x => k))
  (at level 61, m at next level, right associativity) : py_scope.
Notation "m ;; k" := (bind m (fun _ => k))
  (at level 61, right associativity) : py_scope.

(** [for x in l: body(x)]. *)
Fixpoint for_each {A : Type} (l : list A) (body : A -> M unit) : M unit :=
  match l with
  | [] => ret tt
  | x :: l' => bind (body x) (fun _ => for_each l' body)
  end.

Definition print (l : line) : M unit :=
  fun st => (Return tt, mkState (data st) (opened st) (stdout st ++ [l]) (written st)).

Definition data_init : M unit :=
  fun st => (Return tt, mkState [] (opened st) (stdout st) (written st)).

Definition data_append (r : ImageRecord) : M unit :=
  fun st => (Return tt, mkState (data st ++ [r]) (opened st) (stdout st) (written st)).

Definition get_data : M (list ImageRecord) :=
  fun st => (Return (data st), st).

(** [df.to_csv(output_csv, index=False)]. *)
Definition to_csv (df : table) (output_csv : string) : M unit :=
  fun st =>
    (Return tt,
     mkState (data st) (opened st) (stdout st) (written st ++ [(output_csv, df)])).

(** ** The script *)

Section Script.

(** [cv2.imread] on the file system of the run: the decoded image, or
    [None] when the file cannot be read or decoded. *)
Variable imread : string -> option Cv.image.

(** [re.search]. *)
Variable re_search : string -> string -> outcome (option Match).

(** [os.getcwd()]. *)
Variable getcwd : string.

Definition cv2_imread (path : string) : M (option Cv.image) :=
  fun st =>
    (Return (imread path),
     mkState (data st) (opened st ++ [path]) (stdout st) (written st)).

Definition extract_rgb_features (image_path : string) : M (Qc * Qc * Qc) :=
  (image <- cv2_imread image_path ;;
   match image with
   | None => raise (ValueError ("无法读取图像: " +++ image_path))
   | Some image =>
       let '(blue_channel, green_channel, red_channel) := Cv.split image in
       let blue_mean := Cv.mean blue_channel in
       let green_mean := Cv.mean green_channel in
       let red_mean := Cv.mean red_channel in
       ret (blue_mean, green_mean, red_mean)
   end)%py.

Definition get_concentration_label (file_name pattern : string)
  : outcome (option string) :=
  obind (re_search pattern file_name) (fun m =>
    match m with
    | Some m => group m 1
    | None => Return None
    end).

Definition image_extensions : list string := [".jpg"; ".jpeg"; ".png"; ".bmp"].

Definition is_image_file (filename : string) : bool :=
  Str.mem (Str.lower (PosixPath.suffix filename)) image_extensions.

(** The [try] block of the loop body. *)
Definition process_image (root_directory pattern dirpath filename image_path : string)
  : M unit :=
  (means <- extract_rgb_features image_path ;;
   let '(blue_mean, green_mean, red_mean) := means in
   concentration_label <- lift (get_concentration_label filename pattern) ;;
   relative_path <- lift (PosixPath.relpath getcwd dirpath root_directory) ;;
   data_append
     (mkImageRecord filename relative_path blue_mean green_mean red_mean
        concentration_label) ;;
   print (Processed (PosixPath.join relative_path filename)
            blue_mean green_mean red_mean concentration_label))%py.

(** The body of [for filename in filenames]. *)
Definition process_file (root_directory pattern dirpath filename : string)
  : M unit :=
  if is_image_file filename then
    let image_path := PosixPath.join dirpath filename in
    try_except
      (process_image root_directory pattern dirpath filename image_path)
      (fun e =>
         print (Failed ("处理图像 " +++ image_path +++ " 时出错: " +++ str_exn e)))
  else ret tt.

Definition traverse (root_directory pattern : string) (fs : dir) : M unit :=
  for_each (os_walk root_directory fs)
    (fun '(dirpath, dirnames, filenames) =>
       for_each filenames (process_file root_directory pattern dirpath)).

Definition export (output_csv : string) : M unit :=
  (data <- get_data ;;
   match data with
   | _ :: _ =>
       let df := DataFrame data in
       to_csv df output_csv ;;
       print (Saved output_csv) ;;
       print (Count (List.length data)) ;;
       print FormatExample ;;
       print (Head (mkTable (columns df) (firstn 5 (rows df))))
   | [] => print NotFound
   end)%py.

(** [fs] is the directory tree found at [root_directory]. *)
Definition process_images_in_directory (fs : dir)
  (root_directory output_csv pattern : string) : M unit :=
  (data_init ;;
   traverse root_directory pattern fs ;;
   export output_csv)%py.

End Script.

(** [re.search] given by [Re] on its fragment.  A pattern outside the
    fragment is not modelled; it is given the result of an invalid pattern
    here, and nothing below is stated about such a pattern. *)
Definition re_search_fragment (pattern text : string) : outcome (option Match) :=
  match Re.search pattern text with
  | Some o => o
  | None => Raise (re_error "pattern outside the modelled fragment")
  end.

(** ** Vocabulary of the statements *)

(** The files of a tree, each with the names of the directories that lead
    to it from the root of the tree: first the files of the directory
    itself, then those of each subdirectory in turn. *)
Fixpoint located (d : dir) : list (list string * string) :=
  match d with
  | Dir ds fs =>
      map (fun f => ([], f)) fs
        ++ flat_map (fun p : string * dir =>
                       map (fun q : list string * string => (fst p :: fst q, snd q))
                           (located (snd p))) ds
  end.

(** The path of the directory reached from [root] through [names], as
    [os.walk] builds it. *)
Definition path_of (root : string) (names : list string) : string :=
  fold_left PosixPath.join names root.

(** A name that a directory entry can have: not empty, without a slash,
    and neither [.] nor [..]. *)
Definition valid_name (s : string) : bool :=
  negb (Str.is_empty s)
  && negb (existsb (Ascii.eqb Str.slash) (list_ascii_of_string s))
  && negb (String.eqb s PosixPath.curdir)
  && negb (String.eqb s PosixPath.pardir).

(** A piece without a slash, and a piece that is moreover not empty. *)
Definition no_slash (s : string) : bool :=
  negb (existsb (Ascii.eqb Str.slash) (list_ascii_of_string s)).

Definition plain (s : string) : bool := negb (Str.is_empty s) && no_slash s.

(** The [folder] of a file found through [names]. *)
Definition relative_folder (names : list string) : string :=
  match names with
  | [] => "."
  | _ => String.concat "/" names
  end.

(** The pairs [(dirpath, filename)] in the order of the two loops. *)
Definition visited (root : string) (fs : dir) : list (string * string) :=
  flat_map (fun t : string * list string * list string =>
              map (fun f => (fst (fst t), f)) (snd t))
           (os_walk root fs).

(** The final state of a computation. *)
Definition exec {A : Type} (m : M A) (st : state) : state := snd (m st).

(** The value or exception of a computation. *)
Definition result {A : Type} (m : M A) (st : state) : outcome A := fst (m st).

Definition is_some {A : Type} (o : option A) : bool :=
  match o with Some _ => true | None => false end.

Definition returns {A : Type} (o : outcome A) : bool :=
  match o with Return _ => true | Raise _ => false end.

(** The mean of one stored component over all the pixels of an image. *)
Definition component_mean (f : Cv.pixel -> Z) (img : Cv.image) : Qc :=
  Q2Qc (Qmake (fold_right Z.add 0%Z (map f (List.concat img)))
              (Pos.of_nat (List.length (List.concat img)))).

(** The record built for the file [f] of the folder [rel] from its decoded
    image and its label. *)
Definition record_of (f rel : string) (image : Cv.image) (label : option string)
  : ImageRecord :=
  mkImageRecord f rel
    (component_mean (fun p => fst (fst p)) image)
    (component_mean (fun p => snd (fst p)) image)
    (component_mean (fun p => snd p) image)
    label.

(** *** What a pattern of the fragment denotes *)

(** [denotes r w]: the text [w] belongs to the language of [r]. *)
Inductive denotes : Re.regex -> list ascii -> Prop :=
| D_Eps : denotes Re.Eps []
| D_Lit c : denotes (Re.Lit c) [c]
| D_CharSet ranges x :
    Re.in_ranges x ranges = true -> denotes (Re.CharSet ranges) [x]
| D_Cat r1 r2 w1 w2 :
    denotes r1 w1 -> denotes r2 w2 -> denotes (Re.Cat r1 r2) (w1 ++ w2)
| D_Alt_l r1 r2 w : denotes r1 w -> denotes (Re.Alt r1 r2) w
| D_Alt_r r1 r2 w : denotes r2 w -> denotes (Re.Alt r1 r2) w
| D_Star_nil r : denotes (Re.Star r) []
| D_Star_cons r w1 w2 :
    denotes r w1 -> denotes (Re.Star r) w2 -> denotes (Re.Star r) (w1 ++ w2)
| D_Group n r w : denotes r w -> denotes (Re.Group n r) w.

(** [r] matches somewhere in [text]. *)
Definition matches_anywhere (r : Re.regex) (text : list ascii) : Prop :=
  exists before w after, text = before ++ w ++ after /\ denotes r w.

(** *** The effect of one file, in closed form *)

Section Summary.

Variable imread : string -> option Cv.image.
Variable re_search : string -> string -> outcome (option Match).
Variable getcwd : string.

(** The record that the [try] block builds, or the exception it raises. *)
Definition processed_record (root pattern dirpath filename image_path : string)
  : outcome ImageRecord :=
  match imread image_path with
  | None => Raise (ValueError ("无法读取图像: " +++ image_path))
  | Some image =>
      let '(blue_channel, green_channel, red_channel) := Cv.split image in
      obind (get_concentration_label re_search filename pattern) (fun label =>
      obind (PosixPath.relpath getcwd dirpath root) (fun rel =>
      Return (mkImageRecord filename rel (Cv.mean blue_channel)
                (Cv.mean green_channel) (Cv.mean red_channel) label)))
  end.

(** The line printed for a record. *)
Definition progress_line (r : ImageRecord) : line :=
  Processed (PosixPath.join (folder r) (filename r))
            (Blue r) (Green r) (Red r) (Concentration_Label r).

(** The line printed for an exception raised on [image_path]. *)
Definition diagnostic (image_path : string) (e : exn) : line :=
  Failed ("处理图像 " +++ image_path +++ " 时出错: " +++ str_exn e).

(** The state after the loop body has run on one file. *)
Definition after_file (root pattern : string) (st : state)
  (entry : string * string) : state :=
  let '(dirpath, filename) := entry in
  if is_image_file filename then
    let image_path := PosixPath.join dirpath filename in
    match processed_record root pattern dirpath filename image_path with
    | Return r =>
        mkState (data st ++ [r]) (opened st ++ [image_path])
                (stdout st ++ [progress_line r]) (written st)
    | Raise e =>
        mkState (data st) (opened st ++ [image_path])
                (stdout st ++ [diagnostic image_path e]) (written st)
    end
  else st.

(** The records contributed by one file: one or none. *)
Definition records_of (root pattern : string) (entry : string * string)
  : list ImageRecord :=
  let '(dirpath, filename) := entry in
  if is_image_file filename then
    match processed_record root pattern dirpath filename
            (PosixPath.join dirpath filename) with
    | Return r => [r]
    | Raise _ => []
    end
  else [].

(** A file of the tree that has a recognised extension and decodes. *)
Definition decodable_image (root : string) (q : list string * string) : bool :=
  is_image_file (snd q)
  && is_some (imread (PosixPath.join (path_of root (fst q)) (snd q))).

(** The state after the export step, from the state [st] at the end of
    the traversal. *)
Definition after_export (output_csv : string) (st : state) : state :=
  match data st with
  | [] => mkState (data st) (opened st) (stdout st ++ [NotFound]) (written st)
  | _ :: _ =>
      let df := DataFrame (data st) in
      mkState (data st) (opened st)
              (stdout st ++ [Saved output_csv; Count (List.length (data st));
                             FormatExample;
                             Head (mkTable (columns df) (firstn 5 (rows df)))])
              (written st ++ [(output_csv, df)])
  end.

End Summary.

(** A continuation whose failure does not depend on the captures. *)
Definition blind {X : Type} (k : list ascii -> Re.captures -> option X) : Prop :=
  forall s c c', k s c = None -> k s c' = None.

(** The [try] block of the loop body raises [e] on the file [filename] of
    [dirpath]: the decoding fails, or else the label extraction raises, or
    else the computation of the relative path raises. *)
Inductive try_block_raises (imread : string -> option Cv.image)
  (re_search : string -> string -> outcome (option Match)) (getcwd : string)
  (root pattern dirpath filename : string) : exn -> Prop :=
| raises_decoding :
    imread (PosixPath.join dirpath filename) = None ->
    try_block_raises imread re_search getcwd root pattern dirpath filename
      (ValueError ("无法读取图像: " +++ PosixPath.join dirpath filename))
| raises_label image e :
    imread (PosixPath.join dirpath filename) = Some image ->
    get_concentration_label re_search filename pattern = Raise e ->
    try_block_raises imread re_search getcwd root pattern dirpath filename e
| raises_relpath image label e :
    imread (PosixPath.join dirpath filename) = Some image ->
    get_concentration_label re_search filename pattern = Return label ->
    PosixPath.relpath getcwd dirpath root = Raise e ->
    try_block_raises imread re_search getcwd root pattern dirpath filename e.

(** An example file system: the root holds [notes.txt], [B_002.jpg] and a
    directory [sub], which holds [sample.png], [broken.bmp] and a directory
    [dir] with [x.PNG]. *)
Definition example_tree : dir :=
  Dir [("sub", Dir [("dir", Dir [] ["x.PNG"])] ["sample.png"; "broken.bmp"])]
      ["notes.txt"; "B_002.jpg"].

(** The decoder on the example file system rooted at [/data]: every image
    file but [broken.bmp] holds one colour. *)
Definition example_imread (path : string) : option Cv.image :=
  if String.eqb path "/data/B_002.jpg" then Some (Cv.solid 2 3 10 20 30)
  else if String.eqb path "/data/sub/sample.png" then Some (Cv.solid 1 1 255 0 7)
  else if String.eqb path "/data/sub/dir/x.PNG" then Some (Cv.solid 4 4 1 2 3)
  else None.

(** The script run on the example file system from the working directory
    [/home/user], with [re.search] on the fragment. *)
Definition example_run (pattern : string) : M unit :=
  process_images_in_directory example_imread re_search_fragment "/home/user"
    example_tree "/data" "rgb_features.csv" pattern.

(** ** The main block *)

Definition LABEL_PATTERN : string := "([A-Z])_".


(** *** More vocabulary *)

(** An upper-case ASCII letter. *)
Definition is_upper (a : ascii) : bool :=
  Re.in_ranges a [("A"%char, "Z"%char)].

(** The first upper-case letter of a text that is immediately followed by
    an underscore. *)
Fixpoint first_label (s : list ascii) : option ascii :=
  match s with
  | [] => None
  | x :: s1 =>
      match s1 with
      | [] => None
      | y :: _ =>
          if is_upper x && Ascii.eqb y "_" then Some x else first_label s1
      end
  end.

(** The values of an 8-bit array. *)
Definition uint8 (v : Z) : bool := (0 <=? v)%Z && (v <=? 255)%Z.

Definition uint8_image (image : Cv.image) : bool :=
  forallb (forallb (fun p : Cv.pixel =>
                      uint8 (fst (fst p)) && uint8 (snd (fst p)) && uint8 (snd p)))
          image.

Definition is_progress (l : line) : bool :=
  match l with Processed _ _ _ _ _ => true | _ => false end.

Definition is_diagnostic (l : line) : bool :=
  match l with Failed _ => true | _ => false end.

(** The line that the loop body prints for one file, if any. *)
Definition lines_of (imread : string -> option Cv.image)
  (re_search : string -> string -> outcome (option Match)) (getcwd : string)
  (root pattern : string) (entry : string * string) : list line :=
  let '(dirpath, filename) := entry in
  if is_image_file filename then
    let image_path := PosixPath.join dirpath filename in
    match processed_record imread re_search getcwd root pattern dirpath filename
            image_path with
    | Return r => [progress_line r]
    | Raise e => [diagnostic image_path e]
    end
  else [].

(** [s1] is what is left of [s] after some of it has been read. *)
Definition rest_of (s1 s : list ascii) : Prop := exists w, s = w ++ s1.

(** Every text captured so far is a part of [text]. *)
Definition captures_within (text : list ascii) (c : Re.captures) : Prop :=
  Forall (fun g : option (list ascii) =>
            match g with
            | Some w => exists before after, text = before ++ w ++ after
            | None => True
            end) c.

(** * Theorems *)

(** ** Trees *)

Lemma dir_induction (P : dir -> Prop) :
  (forall ds fs, Forall (fun p => P (snd p)) ds -> P (Dir ds fs)) ->
  forall d, P d.
Proof.
  intros step. fix IH 1. intros [ds fs]. apply step.
  induction ds as [|[name sub] ds IHds]; constructor.
  - apply IH.
  - exact IHds.
Qed.

(** ** Loops *)

Lemma for_each_fold {A : Type} (body : A -> M unit) (g : state -> A -> state) :
  (forall x st, body x st = (Return tt, g st x)) ->
  forall l st, for_each l body st = (Return tt, fold_left g l st).
Proof.
  intros Hbody l. induction l as [|x l IH]; intros st; simpl.
  - reflexivity.
  - unfold bind. rewrite Hbody. apply IH.
Qed.

Lemma fold_left_flat_map {A B S : Type} (f : S -> B -> S) (h : A -> list B) :
  forall l st,
    fold_left f (flat_map h l) st
    = fold_left (fun st x => fold_left f (h x) st) l st.
Proof.
  induction l as [|x l IH]; intros st; simpl.
  - reflexivity.
  - rewrite fold_left_app. apply IH.
Qed.

Lemma fold_left_map {A B S : Type} (f : S -> B -> S) (h : A -> B) :
  forall l st, fold_left f (map h l) st = fold_left (fun st x => f st (h x)) l st.
Proof.
  induction l as [|x l IH]; intros st; simpl; [reflexivity | apply IH].
Qed.


(** ** The walk visits the files of the tree *)

Lemma walk_dir_located (d : dir) :
  forall top,
    flat_map (fun t : string * list string * list string =>
                map (fun f => (fst (fst t), f)) (snd t)) (walk_dir top d)
    = map (fun q : list string * string => (path_of top (fst q), snd q))
          (located d).
Proof.
  induction d as [ds fs IH] using dir_induction. intros top.
  cbn [walk_dir located flat_map fst snd].
  rewrite map_app, map_map. cbn [fst snd path_of fold_left]. f_equal.
  induction IH as [|[name sub] ds Hsub _ IHds]; cbn [flat_map].
  - reflexivity.
  - rewrite flat_map_app, map_app, IHds. f_equal.
    cbn [fst snd] in *. rewrite Hsub, map_map. reflexivity.
Qed.

Lemma visited_located (root : string) (fs : dir) :
  Str.is_empty root = false ->
  visited root fs
  = map (fun q : list string * string => (path_of root (fst q), snd q))
        (located fs).
Proof.
  intros Hroot. unfold visited, os_walk. rewrite Hroot. apply walk_dir_located.
Qed.

Lemma join_not_empty (a b : string) :
  Str.is_empty a = false -> Str.is_empty (PosixPath.join a b) = false.
Proof.
  intros Ha. unfold PosixPath.join.
  destruct (Str.startswith Str.slash b) eqn:Hb.
  - destruct b; [discriminate | reflexivity].
  - destruct a; [discriminate |].
    destruct (_ || _); reflexivity.
Qed.

Lemma path_of_not_empty (names : list string) :
  forall root, Str.is_empty root = false ->
               Str.is_empty (path_of root names) = false.
Proof.
  induction names as [|n names IH]; intros root Hroot; cbn.
  - exact Hroot.
  - apply IH, join_not_empty, Hroot.
Qed.

Lemma relpath_returns (cwd path start : string) :
  Str.is_empty path = false ->
  exists rel, PosixPath.relpath cwd path start = Return rel.
Proof.
  intros Hpath. unfold PosixPath.relpath. rewrite Hpath.
  destruct (_ ++ _); eauto.
Qed.

(** ** The loop body and the run, in closed form *)

Section ScriptFacts.

Variable imread : string -> option Cv.image.
Variable re_search : string -> string -> outcome (option Match).
Variable getcwd : string.

Lemma extract_rgb_features_run (image_path : string) (st : state) :
  extract_rgb_features imread image_path st
  = (match imread image_path with
     | None => Raise (ValueError ("无法读取图像: " +++ image_path))
     | Some image =>
         Return (Cv.mean (fst (fst (Cv.split image))),
                 Cv.mean (snd (fst (Cv.split image))),
                 Cv.mean (snd (Cv.split image)))
     end,
     mkState (data st) (opened st ++ [image_path]) (stdout st) (written st)).
Proof.
  unfold extract_rgb_features, bind, cv2_imread.
  destruct (imread image_path); reflexivity.
Qed.

Lemma process_image_run (root pattern dirpath filename image_path : string)
  (st : state) :
  process_image imread re_search getcwd root pattern dirpath filename
                image_path st
  = match processed_record imread re_search getcwd root pattern dirpath
            filename image_path with
    | Return r =>
        (Return tt,
         mkState (data st ++ [r]) (opened st ++ [image_path])
                 (stdout st ++ [progress_line r]) (written st))
    | Raise e =>
        (Raise e,
         mkState (data st) (opened st ++ [image_path]) (stdout st) (written st))
    end.
Proof.
  unfold process_image, processed_record, bind.
  rewrite extract_rgb_features_run.
  destruct (imread image_path) as [image|]; [|reflexivity].
  cbn [Cv.split fst snd]. unfold lift.
  destruct (get_concentration_label re_search filename pattern); [|reflexivity].
  cbn [obind].
  destruct (PosixPath.relpath getcwd dirpath root); reflexivity.
Qed.

Lemma process_file_run (root pattern dirpath filename : string) (st : state) :
  process_file imread re_search getcwd root pattern dirpath filename st
  = (Return tt,
     after_file imread re_search getcwd root pattern st (dirpath, filename)).
Proof.
  unfold process_file, after_file.
  destruct (is_image_file filename); [|reflexivity].
  unfold try_except. rewrite process_image_run.
  destruct (processed_record _ _ _ _ _ _ _ _); reflexivity.
Qed.

Lemma traverse_run (root pattern : string) (fs : dir) (st : state) :
  traverse imread re_search getcwd root pattern fs st
  = (Return tt,
     fold_left (after_file imread re_search getcwd root pattern)
               (visited root fs) st).
Proof.
  unfold traverse, visited.
  rewrite (for_each_fold _
             (fun st (t : string * list string * list string) =>
                fold_left (after_file imread re_search getcwd root pattern)
                          (map (fun f => (fst (fst t), f)) (snd t)) st)).
  - rewrite fold_left_flat_map. reflexivity.
  - intros [[dirpath dirnames] filenames] st0. cbn [fst snd].
    rewrite (for_each_fold _
               (fun st f =>
                  after_file imread re_search getcwd root pattern st (dirpath, f))).
    + rewrite fold_left_map. reflexivity.
    + intros f st1. apply process_file_run.
Qed.

Lemma export_run (output_csv : string) (st : state) :
  export output_csv st = (Return tt, after_export output_csv st).
Proof.
  unfold export, after_export, bind, get_data, print, to_csv.
  destruct (data st) eqn:Hdata; cbn -[firstn]; rewrite ?Hdata;
    repeat rewrite <- app_assoc; reflexivity.
Qed.

Lemma run_closed_form (fs : dir) (root output_csv pattern : string) (st : state) :
  process_images_in_directory imread re_search getcwd fs root output_csv
                              pattern st
  = (Return tt,
     after_export output_csv
       (fold_left (after_file imread re_search getcwd root pattern)
                  (visited root fs)
                  (mkState [] (opened st) (stdout st) (written st)))).
Proof.
  unfold process_images_in_directory, bind, data_init.
  rewrite traverse_run, export_run. reflexivity.
Qed.

(** What the traversal leaves in each component of the state. *)
Lemma traversal_data (root pattern : string) (l : list (string * string)) :
  forall st,
    data (fold_left (after_file imread re_search getcwd root pattern) l st)
    = data st ++ flat_map (records_of imread re_search getcwd root pattern) l.
Proof.
  induction l as [|[dirpath filename] l IH]; intros st; cbn [fold_left flat_map].
  - now rewrite app_nil_r.
  - rewrite IH. unfold after_file, records_of.
    destruct (is_image_file filename); [|reflexivity].
    destruct (processed_record _ _ _ _ _ _ _ _); cbn [data].
    + now rewrite <- app_assoc.
    + reflexivity.
Qed.

Lemma traversal_written (root pattern : string) (l : list (string * string)) :
  forall st,
    written (fold_left (after_file imread re_search getcwd root pattern) l st)
    = written st.
Proof.
  induction l as [|[dirpath filename] l IH]; intros st; cbn [fold_left].
  - reflexivity.
  - rewrite IH. unfold after_file.
    destruct (is_image_file filename); [|reflexivity].
    destruct (processed_record _ _ _ _ _ _ _ _); reflexivity.
Qed.

Lemma traversal_opened (root pattern : string) (l : list (string * string)) :
  forall st,
    opened (fold_left (after_file imread re_search getcwd root pattern) l st)
    = opened st
        ++ map (fun e => PosixPath.join (fst e) (snd e))
               (filter (fun e => is_image_file (snd e)) l).
Proof.
  induction l as [|[dirpath filename] l IH]; intros st;
    cbn [fold_left filter map fst snd].
  - now rewrite app_nil_r.
  - rewrite IH. unfold after_file.
    destruct (is_image_file filename); [|reflexivity].
    destruct (processed_record _ _ _ _ _ _ _ _); cbn [opened map fst snd];
      now rewrite <- app_assoc.
Qed.

End ScriptFacts.

(** ** Failures inside the loop body *)

Section Failures.

Variable imread : string -> option Cv.image.
Variable re_search : string -> string -> outcome (option Match).
Variable getcwd : string.

Lemma try_block_raises_record (root pattern dirpath filename : string) (e : exn) :
  try_block_raises imread re_search getcwd root pattern dirpath filename e ->
  processed_record imread re_search getcwd root pattern dirpath filename
                   (PosixPath.join dirpath filename) = Raise e.
Proof.
  intros [Himg | image e' Himg Hlabel | image label e' Himg Hlabel Hrel];
    unfold processed_record; rewrite Himg; cbn [Cv.split].
  - reflexivity.
  - now rewrite Hlabel.
  - rewrite Hlabel. cbn [obind]. now rewrite Hrel.
Qed.

(** The run never ends with an exception. *)
Lemma run_returns (fs : dir) (root output_csv pattern : string) (st : state) :
  result (process_images_in_directory imread re_search getcwd fs root
            output_csv pattern) st = Return tt.
Proof. unfold result. now rewrite run_closed_form. Qed.

(** After a file whose [try] block raises, the loop goes on with the
    remaining files from a state that differs only by the file opened and
    the diagnostic printed. *)
Lemma skipped_file_state (root pattern dirpath filename : string) (e : exn)
  (st : state) :
  is_image_file filename = true ->
  try_block_raises imread re_search getcwd root pattern dirpath filename e ->
  process_file imread re_search getcwd root pattern dirpath filename st
  = (Return tt,
     mkState (data st) (opened st ++ [PosixPath.join dirpath filename])
             (stdout st ++ [diagnostic (PosixPath.join dirpath filename) e])
             (written st)).
Proof.
  intros Hext Hraise. rewrite process_file_run. unfold after_file.
  rewrite Hext, (try_block_raises_record _ _ _ _ _ Hraise). reflexivity.
Qed.

(** C3.  A file with a recognised extension that cannot be read or
    decoded: [extract_rgb_features] raises a [ValueError] whose message
    contains the path of the file; the loop body catches it, prints a
    diagnostic made of that path and that message, leaves [data]
    unchanged, and the loop continues with the files that follow; the run
    as a whole returns normally. *)
Theorem decode_failure_is_logged_and_skipped
  (fs : dir) (root output_csv pattern dirpath filename : string) (st : state) :
  is_image_file filename = true ->
  imread (PosixPath.join dirpath filename) = None ->
  let image_path := PosixPath.join dirpath filename in
  let message := "无法读取图像: " +++ image_path in
  let skipped :=
    mkState (data st) (opened st ++ [image_path])
            (stdout st ++ [Failed ("处理图像 " +++ image_path +++ " 时出错: " +++ message)])
            (written st) in
  extract_rgb_features imread image_path st
  = (Raise (ValueError message),
     mkState (data st) (opened st ++ [image_path]) (stdout st) (written st))
  /\ process_file imread re_search getcwd root pattern dirpath filename st
     = (Return tt, skipped)
  /\ (forall following,
        for_each (filename :: following)
          (process_file imread re_search getcwd root pattern dirpath) st
        = for_each following
            (process_file imread re_search getcwd root pattern dirpath) skipped)
  /\ result (process_images_in_directory imread re_search getcwd fs root
               output_csv pattern) st = Return tt.
Proof.
  intros Hext Himg. cbv zeta.
  pose proof (skipped_file_state root pattern dirpath filename _ st Hext
                (raises_decoding _ _ _ _ _ _ _ Himg)) as Hfile.
  repeat split.
  - rewrite extract_rgb_features_run. now rewrite Himg.
  - exact Hfile.
  - intros following. cbn [for_each]. unfold bind. now rewrite Hfile.
  - apply run_returns.
Qed.

(** C9.  Whatever the [try] block raises on a file (the decoding, the
    label extraction, for instance on an invalid pattern, or the relative
    path), the loop body catches it: it returns normally, [data] is
    unchanged, the diagnostic names the path and the message of the
    exception, the loop continues with the files that follow, and the run
    as a whole returns normally. *)
Theorem every_exception_of_a_file_is_caught
  (fs : dir) (root output_csv pattern dirpath filename : string) (e : exn)
  (st : state) :
  is_image_file filename = true ->
  try_block_raises imread re_search getcwd root pattern dirpath filename e ->
  let image_path := PosixPath.join dirpath filename in
  let skipped :=
    mkState (data st) (opened st ++ [image_path])
            (stdout st ++ [Failed ("处理图像 " +++ image_path +++ " 时出错: " +++ str_exn e)])
            (written st) in
  result (process_image imread re_search getcwd root pattern dirpath filename
            image_path) st = Raise e
  /\ process_file imread re_search getcwd root pattern dirpath filename st
     = (Return tt, skipped)
  /\ (forall following,
        for_each (filename :: following)
          (process_file imread re_search getcwd root pattern dirpath) st
        = for_each following
            (process_file imread re_search getcwd root pattern dirpath) skipped)
  /\ result (process_images_in_directory imread re_search getcwd fs root
               output_csv pattern) st = Return tt.
Proof.
  intros Hext Hraise. cbv zeta.
  pose proof (skipped_file_state root pattern dirpath filename e st Hext Hraise)
    as Hfile.
  repeat split.
  - unfold result. rewrite process_image_run.
    now rewrite (try_block_raises_record _ _ _ _ _ Hraise).
  - exact Hfile.
  - intros following. cbn [for_each]. unfold bind. now rewrite Hfile.
  - apply run_returns.
Qed.

End Failures.

(** ** The records of a run *)

Section Run.

Variable imread : string -> option Cv.image.
Variable re_search : string -> string -> outcome (option Match).
Variable getcwd : string.

Local Notation "'script'" :=
  (process_images_in_directory imread re_search getcwd).

Lemma run_data (fs : dir) (root output_csv pattern : string) (st : state) :
  data (exec (script fs root output_csv pattern) st)
  = flat_map (records_of imread re_search getcwd root pattern) (visited root fs).
Proof.
  unfold exec. rewrite run_closed_form. cbn [snd].
  unfold after_export.
  destruct (data (fold_left _ _ _)) eqn:Hdata; cbn [data];
    rewrite <- Hdata, traversal_data; reflexivity.
Qed.

Lemma run_written (fs : dir) (root output_csv pattern : string) (st : state) :
  written (exec (script fs root output_csv pattern) st)
  = written st
      ++ match data (exec (script fs root output_csv pattern) st) with
         | [] => []
         | _ :: _ =>
             [(output_csv,
               DataFrame (data (exec (script fs root output_csv pattern) st)))]
         end.
Proof.
  unfold exec. rewrite run_closed_form. cbn [snd].
  unfold after_export.
  destruct (data (fold_left _ _ _)) eqn:Hdata; cbn [data written];
    rewrite traversal_written; cbn [written].
  - now rewrite app_nil_r.
  - reflexivity.
Qed.

Lemma run_stdout_empty (fs : dir) (root output_csv pattern : string) (st : state) :
  data (exec (script fs root output_csv pattern) st) = [] ->
  exists lines,
    stdout (exec (script fs root output_csv pattern) st) = lines ++ [NotFound].
Proof.
  unfold exec. rewrite run_closed_form. cbn [snd].
  unfold after_export.
  destruct (data (fold_left _ _ _)) eqn:Hdata; cbn [data stdout].
  - intros _. eauto.
  - discriminate.
Qed.

(** One record for each file that has a recognised extension and decodes,
    when neither the label extraction nor the relative path raises. *)
Lemma records_count (root pattern : string) (l : list (list string * string)) :
  Str.is_empty root = false ->
  (forall q, In q l -> is_image_file (snd q) = true ->
             returns (get_concentration_label re_search (snd q) pattern) = true) ->
  List.length
    (flat_map (records_of imread re_search getcwd root pattern)
              (map (fun q : list string * string =>
                      (path_of root (fst q), snd q)) l))
  = List.length (filter (decodable_image imread root) l).
Proof.
  intros Hroot. induction l as [|[names f] l IH]; intros Hlabel.
  - reflexivity.
  - cbn [map flat_map filter fst snd]. rewrite length_app, IH.
    2:{ intros q Hq. apply Hlabel. now right. }
    unfold records_of, decodable_image, processed_record. cbn [fst snd].
    destruct (is_image_file f) eqn:Hext; [|reflexivity].
    destruct (imread _) as [image|]; [|reflexivity].
    cbn [Cv.split is_some andb].
    specialize (Hlabel (names, f) (or_introl eq_refl) Hext). cbn [snd] in Hlabel.
    destruct (get_concentration_label re_search f pattern) as [label|];
      [|discriminate].
    cbn [obind].
    destruct (relpath_returns getcwd (path_of root names) root
                (path_of_not_empty names root Hroot)) as [rel Hrel].
    rewrite Hrel. reflexivity.
Qed.

(** C1.  In a tree with [N] files that have a recognised extension and
    decode, and [M] other files, at any depth, the run collects exactly
    [N] records, and the table it writes, which exists when [N] is not
    zero, has exactly these [N] rows.  The pattern is one on which the
    label extraction raises no exception for the image files of the
    tree, as is every valid pattern with a capturing group. *)
Theorem one_row_per_decodable_image
  (fs : dir) (root output_csv pattern : string) (st : state) :
  Str.is_empty root = false ->
  (forall q, In q (located fs) -> is_image_file (snd q) = true ->
             returns (get_concentration_label re_search (snd q) pattern) = true) ->
  let final := exec (script fs root output_csv pattern) st in
  let N := List.length (filter (decodable_image imread root) (located fs)) in
  let M :=
    List.length (filter (fun q => negb (decodable_image imread root q))
                        (located fs)) in
  List.length (located fs) = N + M
  /\ List.length (data final) = N
  /\ List.length (rows (DataFrame (data final))) = N
  /\ written final
     = written st
         ++ (if Nat.eqb N 0 then [] else [(output_csv, DataFrame (data final))]).
Proof.
  intros Hroot Hlabel. cbv zeta.
  assert (Hcount :
            List.length (data (exec (script fs root output_csv pattern) st))
            = List.length (filter (decodable_image imread root) (located fs))).
  { rewrite run_data, (visited_located root fs Hroot).
    now apply records_count. }
  repeat split.
  - symmetry. apply filter_length.
  - exact Hcount.
  - exact Hcount.
  - rewrite run_written, <- Hcount.
    destruct (data (exec (script fs root output_csv pattern) st)); reflexivity.
Qed.

(** C4.  A run that collects no record writes no file and ends its
    output with the line saying that no image file could be processed;
    this is the case of a tree in which no file has both a recognised
    extension and a content that decodes, in particular of a tree
    without files. *)
Theorem no_record_no_output_file
  (fs : dir) (root output_csv pattern : string) (st : state) :
  let final := exec (script fs root output_csv pattern) st in
  (data final = [] ->
   written final = written st
   /\ (exists lines, stdout final = lines ++ [NotFound])
   /\ result (script fs root output_csv pattern) st = Return tt)
  /\ (Forall (fun q => decodable_image imread root q = false) (located fs) ->
      data final = []).
Proof.
  cbv zeta. split.
  - intros Hdata. repeat split.
    + rewrite run_written, Hdata. now rewrite app_nil_r.
    + now apply run_stdout_empty.
    + apply run_returns.
  - intros Hnone. rewrite run_data. unfold visited, os_walk.
    destruct (Str.is_empty root); [reflexivity |].
    rewrite walk_dir_located.
    induction Hnone as [|[names f] l Hq _ IH]; [reflexivity |].
    cbn [map flat_map fst snd]. rewrite IH, app_nil_r.
    unfold decodable_image in Hq. cbn [fst snd] in Hq.
    unfold records_of, processed_record.
    destruct (is_image_file f); [|reflexivity].
    destruct (imread _); [discriminate | reflexivity].
Qed.

End Run.

(** ** Splitting and joining paths *)

Module PathFacts.

Import Str PosixPath.

Lemma valid_name_plain (s : string) : valid_name s = true -> plain s = true.
Proof.
  unfold valid_name, plain, no_slash. intros H.
  apply andb_true_iff in H as [H _]. apply andb_true_iff in H as [H _].
  exact H.
Qed.

Lemma no_slash_cons (x : ascii) (s : string) :
  no_slash (String x s) = negb (Ascii.eqb x slash) && no_slash s.
Proof.
  unfold no_slash. cbn [list_ascii_of_string existsb].
  now rewrite negb_orb, Ascii.eqb_sym.
Qed.

Lemma split_not_nil (c : ascii) (s : string) : split c s <> [].
Proof.
  destruct s as [|a s]; cbn; [discriminate |].
  destruct (Ascii.eqb a c); [discriminate |].
  destruct (split c s); discriminate.
Qed.

Lemma split_append (c : ascii) (a b : string) :
  split c (a +++ String c b) = split c a ++ split c b.
Proof.
  induction a as [|x a IH]; cbn.
  - now rewrite Ascii.eqb_refl.
  - destruct (Ascii.eqb x c); rewrite IH; [reflexivity |].
    destruct (split c a) eqn:Hsplit; [now apply split_not_nil in Hsplit |].
    reflexivity.
Qed.

Lemma split_no_slash (s : string) : no_slash s = true -> split slash s = [s].
Proof.
  induction s as [|x s IH]; [reflexivity |].
  rewrite no_slash_cons, andb_true_iff, negb_true_iff. intros [Hx Hs].
  cbn [split]. rewrite Hx, (IH Hs). reflexivity.
Qed.

Lemma split_pieces_no_slash (s : string) :
  Forall (fun p => no_slash p = true) (split slash s).
Proof.
  induction s as [|x s IH]; cbn [split].
  - repeat constructor.
  - destruct (Ascii.eqb x slash) eqn:Hx.
    + constructor; [reflexivity | exact IH].
    + destruct (split slash s) as [|p ps]; inversion IH; subst.
      * repeat constructor. now rewrite no_slash_cons, Hx.
      * constructor; [|assumption]. rewrite no_slash_cons, Hx. assumption.
Qed.

Lemma pieces_append (a b : string) :
  nonempty_pieces (a +++ String slash b) = nonempty_pieces a ++ nonempty_pieces b.
Proof. unfold nonempty_pieces. now rewrite split_append, filter_app. Qed.

Lemma pieces_empty : nonempty_pieces "" = [].
Proof. reflexivity. Qed.

Lemma pieces_plain (s : string) : plain s = true -> nonempty_pieces s = [s].
Proof.
  unfold plain, nonempty_pieces. rewrite andb_true_iff. intros [Hne Hns].
  rewrite (split_no_slash s Hns). cbn. now rewrite Hne.
Qed.

Lemma endswith_inv (c : ascii) (s : string) :
  endswith c s = true -> exists s', s = s' +++ String c "".
Proof.
  induction s as [|x s IH]; [discriminate |].
  destruct s as [|y s].
  - cbn. intros Hx. apply Ascii.eqb_eq in Hx. subst. now exists "".
  - intros H. destruct (IH H) as [s' Hs']. exists (String x s').
    cbn. now rewrite <- Hs'.
Qed.

Lemma append_assoc (a b c : string) : (a +++ b) +++ c = a +++ b +++ c.
Proof. induction a as [|x a IH]; cbn; [reflexivity | now rewrite IH]. Qed.


Lemma pieces_join (a b : string) :
  startswith slash b = false ->
  nonempty_pieces (join a b) = nonempty_pieces a ++ nonempty_pieces b.
Proof.
  intros Hb. unfold join. rewrite Hb.
  destruct a as [|x a]; [reflexivity |]. cbn [is_empty orb].
  destruct (endswith slash (String x a)) eqn:Hend.
  - destruct (endswith_inv _ _ Hend) as [a' Ha']. rewrite Ha'.
    rewrite append_assoc. cbn [String.append].
    rewrite !pieces_append, pieces_empty, app_nil_r. reflexivity.
  - apply pieces_append.
Qed.

Lemma plain_not_absolute (s : string) : plain s = true -> startswith slash s = false.
Proof.
  unfold plain. destruct s as [|x s]; [reflexivity |].
  rewrite no_slash_cons. cbn [is_empty negb andb startswith].
  rewrite andb_true_iff, negb_true_iff. now intros [Hx _].
Qed.

Lemma isabs_join (a b : string) :
  is_empty a = false -> startswith slash b = false ->
  isabs (join a b) = isabs a.
Proof.
  intros Ha Hb. unfold join. rewrite Hb.
  destruct a as [|x a]; [discriminate |].
  destruct (_ || _); reflexivity.
Qed.

(** *** The loop of [normpath] *)

Lemma norm_step_initial (i : nat) (acc : list string) (comp : string) :
  i <> 0 -> norm_step i acc comp = norm_step 1 acc comp.
Proof.
  intros Hi. unfold norm_step. destruct i; [contradiction | reflexivity].
Qed.

Lemma norm_fold_initial (i : nat) (l : list string) :
  i <> 0 ->
  forall acc, fold_left (norm_step i) l acc = fold_left (norm_step 1) l acc.
Proof.
  intros Hi. induction l as [|x l IH]; intros acc; cbn; [reflexivity |].
  now rewrite IH, norm_step_initial.
Qed.

Lemma norm_fold_skips_empty (i : nat) (l : list string) :
  forall acc,
    fold_left (norm_step i) l acc
    = fold_left (norm_step i) (filter (fun x => negb (is_empty x)) l) acc.
Proof.
  induction l as [|x l IH]; intros acc; cbn [fold_left filter]; [reflexivity |].
  destruct x as [|a x]; cbn [is_empty negb]; [|cbn [fold_left]]; apply IH.
Qed.

Lemma norm_step_name (i : nat) (acc : list string) (n : string) :
  valid_name n = true -> norm_step i acc n = acc ++ [n].
Proof.
  unfold valid_name, norm_step. intros H.
  apply andb_true_iff in H as [H Hpar]. apply andb_true_iff in H as [H Hcur].
  apply andb_true_iff in H as [Hne _].
  apply negb_true_iff in Hne, Hcur, Hpar.
  now rewrite Hne, Hcur, Hpar.
Qed.


Lemma removelast_Forall {A : Type} (P : A -> Prop) (l : list A) :
  Forall P l -> Forall P (removelast l).
Proof.
  induction 1 as [|x l Hx Hl IH]; cbn; [constructor |].
  destruct l; [constructor | now constructor].
Qed.

(** The loop keeps only pieces that are plain. *)
Lemma norm_fold_plain (i : nat) (l : list string) :
  Forall (fun p => no_slash p = true) l ->
  forall acc,
    Forall (fun p => plain p = true) acc ->
    Forall (fun p => plain p = true) (fold_left (norm_step i) l acc).
Proof.
  induction 1 as [|x l Hx _ IH]; intros acc Hacc; cbn [fold_left];
    [exact Hacc |].
  apply IH. unfold norm_step.
  destruct (is_empty x) eqn:Hne; cbn [orb]; [exact Hacc |].
  destruct (String.eqb x curdir); [exact Hacc |].
  destruct (_ || _).
  - apply Forall_app. split; [exact Hacc |].
    repeat constructor. unfold plain. now rewrite Hne, Hx.
  - now apply removelast_Forall.
Qed.

(** *** The pieces of a normalized absolute path *)

Lemma pieces_leading_slash (s : string) :
  nonempty_pieces (String slash s) = nonempty_pieces s.
Proof.
  unfold nonempty_pieces. cbn [split]. now rewrite Ascii.eqb_refl.
Qed.

Lemma pieces_slashes (n : nat) (s : string) :
  nonempty_pieces (slashes n +++ s) = nonempty_pieces s.
Proof.
  induction n as [|n IH]; cbn [slashes String.append]; [reflexivity |].
  now rewrite pieces_leading_slash.
Qed.

Lemma pieces_concat (l : list string) :
  Forall (fun p => plain p = true) l ->
  nonempty_pieces (String.concat sep l) = l.
Proof.
  induction 1 as [|x l Hx Hl IH]; [reflexivity |].
  destruct l as [|y l].
  - cbn [String.concat]. now apply pieces_plain.
  - change (String.concat sep (x :: y :: l))
      with (x +++ String slash (String.concat sep (y :: l))).
    now rewrite pieces_append, IH, pieces_plain.
Qed.

Lemma initial_slashes_isabs (p : string) :
  isabs p = true -> initial_slashes p <> 0.
Proof.
  unfold isabs. destruct p as [|a [|b [|c p]]]; cbn [startswith initial_slashes];
    intros Ha; try discriminate; rewrite Ha;
    repeat match goal with |- context [if ?b then _ else _] => destruct b end;
    discriminate.
Qed.

Lemma pieces_normpath (p : string) :
  isabs p = true ->
  nonempty_pieces (normpath p) = norm_loop 1 (nonempty_pieces p).
Proof.
  intros Habs. pose proof (initial_slashes_isabs p Habs) as Hi.
  unfold normpath.
  destruct p as [|a p]; [discriminate |]. cbn [is_empty].
  destruct (initial_slashes (String a p)) as [|i] eqn:Hinit; [contradiction |].
  cbn [slashes String.append is_empty].
  rewrite pieces_leading_slash, pieces_slashes, pieces_concat.
  - unfold norm_loop, nonempty_pieces.
    rewrite norm_fold_initial by discriminate. apply norm_fold_skips_empty.
  - apply norm_fold_plain; [apply split_pieces_no_slash | constructor].
Qed.

(** *** The pieces of [abspath] along a walk *)

Lemma isabs_not_empty (p : string) : isabs p = true -> is_empty p = false.
Proof. destruct p; [discriminate | reflexivity]. Qed.

Lemma pieces_abspath_join (cwd p n : string) :
  isabs cwd = true -> is_empty p = false -> valid_name n = true ->
  nonempty_pieces (abspath cwd (join p n))
  = nonempty_pieces (abspath cwd p) ++ [n].
Proof.
  intros Hcwd Hp Hn.
  pose proof (valid_name_plain n Hn) as Hplain.
  pose proof (plain_not_absolute n Hplain) as Hrel.
  unfold abspath. rewrite (isabs_join p n Hp Hrel).
  destruct (isabs p) eqn:Habs.
  - rewrite !pieces_normpath; [| assumption | now rewrite isabs_join].
    rewrite (pieces_join p n Hrel), (pieces_plain n Hplain).
    unfold norm_loop. rewrite fold_left_app. cbn [fold_left].
    now apply norm_step_name.
  - assert (Hjoin : forall q, startswith slash q = false ->
                              isabs (join cwd q) = true).
    { intros q Hq. rewrite isabs_join; [assumption | | assumption].
      now apply isabs_not_empty. }
    assert (Hpn : startswith slash (join p n) = false).
    { change (isabs (join p n) = false). now rewrite isabs_join. }
    rewrite !pieces_normpath by (apply Hjoin; assumption).
    rewrite (pieces_join cwd (join p n) Hpn), (pieces_join p n Hrel),
      (pieces_join cwd p Habs), (pieces_plain n Hplain), app_assoc.
    unfold norm_loop. rewrite fold_left_app. cbn [fold_left].
    now apply norm_step_name.
Qed.

Lemma pieces_abspath_walk (cwd : string) (names : list string) :
  isabs cwd = true ->
  Forall (fun n => valid_name n = true) names ->
  forall root,
    is_empty root = false ->
    nonempty_pieces (abspath cwd (path_of root names))
    = nonempty_pieces (abspath cwd root) ++ names.
Proof.
  intros Hcwd. induction 1 as [|n names Hn _ IH]; intros root Hroot.
  - cbn. now rewrite app_nil_r.
  - cbn [path_of fold_left]. fold (path_of (join root n) names).
    rewrite IH by now apply join_not_empty.
    rewrite pieces_abspath_join by assumption. now rewrite <- app_assoc.
Qed.

(** *** [relpath] along a walk *)

Lemma commonprefix_app (l m : list string) : commonprefix l (l ++ m) = l.
Proof.
  induction l as [|x l IH]; cbn; [now destruct m |].
  now rewrite String.eqb_refl, IH.
Qed.

Lemma endswith_append (c : ascii) (a b : string) :
  is_empty b = false -> endswith c (a +++ b) = endswith c b.
Proof.
  intros Hb. induction a as [|x a IH]; [reflexivity |].
  cbn [String.append]. cbn [endswith].
  destruct (a +++ b) eqn:Hab.
  - destruct a; [cbn in Hab; subst; discriminate | discriminate].
  - exact IH.
Qed.

Lemma no_slash_endswith (s : string) : no_slash s = true -> endswith slash s = false.
Proof.
  induction s as [|x s IH]; [reflexivity |].
  rewrite no_slash_cons, andb_true_iff, negb_true_iff. intros [Hx Hs].
  cbn [endswith]. destruct s; [exact Hx | now apply IH].
Qed.

Lemma join_plain (a b : string) :
  is_empty a = false -> endswith slash a = false -> plain b = true ->
  join a b = a +++ String slash b.
Proof.
  intros Ha Hend Hb. unfold join.
  now rewrite (plain_not_absolute b Hb), Ha, Hend.
Qed.

Lemma join_all_concat (names : list string) :
  Forall (fun n => plain n = true) names ->
  forall acc,
    is_empty acc = false -> endswith slash acc = false ->
    fold_left join names acc = String.concat sep (acc :: names).
Proof.
  induction 1 as [|n names Hn _ IH]; intros acc Hacc Hend; [reflexivity |].
  cbn [fold_left]. rewrite (join_plain acc n Hacc Hend Hn).
  apply andb_true_iff in Hn as Hn'. destruct Hn' as [Hne Hns].
  apply negb_true_iff in Hne.
  rewrite IH.
  - change (String.concat sep (acc :: n :: names))
      with (acc +++ String slash (String.concat sep (n :: names))).
    destruct names as [|m names].
    + reflexivity.
    + change (String.concat sep ((acc +++ String slash n) :: m :: names))
        with ((acc +++ String slash n)
                +++ String slash (String.concat sep (m :: names))).
      change (String.concat sep (n :: m :: names))
        with (n +++ String slash (String.concat sep (m :: names))).
      now rewrite append_assoc.
  - destruct acc; [discriminate | reflexivity].
  - change (acc +++ String slash n) with (acc +++ (String slash n)).
    rewrite endswith_append by reflexivity.
    cbn [endswith]. destruct n as [|x n]; [discriminate |].
    now apply (no_slash_endswith (String x n)).
Qed.

Lemma relpath_walk (cwd root : string) (names : list string) :
  isabs cwd = true ->
  is_empty root = false ->
  Forall (fun n => valid_name n = true) names ->
  relpath cwd (path_of root names) root = Return (relative_folder names).
Proof.
  intros Hcwd Hroot Hnames. unfold relpath.
  rewrite (path_of_not_empty names root Hroot).
  rewrite (pieces_abspath_walk cwd names Hcwd Hnames root Hroot).
  rewrite commonprefix_app, Nat.sub_diag. cbn [repeat app].
  rewrite skipn_app, Nat.sub_diag, skipn_all. cbn [skipn app].
  destruct Hnames as [|n names Hn Hnames]; [reflexivity |].
  unfold relative_folder, join_all. f_equal.
  pose proof (valid_name_plain n Hn) as Hplain.
  apply join_all_concat.
  - eapply Forall_impl; [|exact Hnames]. apply valid_name_plain.
  - apply andb_true_iff in Hplain as [Hne _]. now apply negb_true_iff in Hne.
  - apply andb_true_iff in Hplain as [_ Hns]. now apply no_slash_endswith.
Qed.

End PathFacts.

(** ** The record of a processed file *)

Section Records.

Variable imread : string -> option Cv.image.
Variable re_search : string -> string -> outcome (option Match).
Variable getcwd : string.

Local Notation "'script'" :=
  (process_images_in_directory imread re_search getcwd).

Lemma mean_split (image : Cv.image) :
  Cv.mean (fst (fst (Cv.split image)))
  = component_mean (fun p => fst (fst p)) image
  /\ Cv.mean (snd (fst (Cv.split image)))
     = component_mean (fun p => snd (fst p)) image
  /\ Cv.mean (snd (Cv.split image)) = component_mean (fun p => snd p) image.
Proof.
  unfold Cv.mean, Cv.total, Cv.size, component_mean, Cv.split. cbn [fst snd].
  rewrite <- !concat_map, !length_map. repeat split.
Qed.

Lemma processed_file (fs : dir) (root output_csv pattern : string) (st : state)
  (names : list string) (f rel : string) (image : Cv.image)
  (label : option string) :
  Str.is_empty root = false ->
  In (names, f) (located fs) ->
  is_image_file f = true ->
  imread (PosixPath.join (path_of root names) f) = Some image ->
  get_concentration_label re_search f pattern = Return label ->
  PosixPath.relpath getcwd (path_of root names) root = Return rel ->
  (forall st0,
      process_file imread re_search getcwd root pattern (path_of root names) f st0
      = (Return tt,
         mkState (data st0 ++ [record_of f rel image label])
                 (opened st0 ++ [PosixPath.join (path_of root names) f])
                 (stdout st0 ++ [progress_line (record_of f rel image label)])
                 (written st0)))
  /\ In (record_of f rel image label)
        (data (exec (script fs root output_csv pattern) st)).
Proof.
  intros Hroot Hin Hext Himg Hlabel Hrel.
  assert (Hrecord :
            processed_record imread re_search getcwd root pattern
              (path_of root names) f (PosixPath.join (path_of root names) f)
            = Return (record_of f rel image label)).
  { unfold processed_record. rewrite Himg.
    destruct (mean_split image) as (Hb & Hg & Hr).
    cbn [Cv.split]. cbn [Cv.split fst snd] in Hb, Hg, Hr.
    rewrite Hlabel. cbn [obind]. rewrite Hrel. cbn [obind].
    unfold record_of. now rewrite Hb, Hg, Hr. }
  split.
  - intros st0. rewrite process_file_run. unfold after_file.
    now rewrite Hext, Hrecord.
  - rewrite run_data, (visited_located root fs Hroot).
    apply in_flat_map.
    exists (path_of root names, f). split.
    + apply (in_map (fun q : list string * string =>
                       (path_of root (fst q), snd q)) _ _ Hin).
    + unfold records_of. rewrite Hext, Hrecord. now left.
Qed.

(** C7.  A file [f] with a recognised extension, found through the
    directories [names] (one at least) below the root, that decodes and
    for which the label extraction returns: the loop body appends one
    record, whose [filename] is [f] and whose [folder] is the names
    joined by the separator, and the run keeps this record.  The working
    directory is an absolute path and the names are names of directory
    entries. *)
Theorem folder_is_relative_directory
  (fs : dir) (root output_csv pattern : string) (st : state)
  (names : list string) (f : string) (image : Cv.image) (label : option string) :
  PosixPath.isabs getcwd = true ->
  Str.is_empty root = false ->
  In (names, f) (located fs) ->
  Forall (fun n => valid_name n = true) names ->
  names <> [] ->
  is_image_file f = true ->
  imread (PosixPath.join (path_of root names) f) = Some image ->
  get_concentration_label re_search f pattern = Return label ->
  exists r,
    filename r = f
    /\ folder r = String.concat "/" names
    /\ (forall st0,
           data (exec (process_file imread re_search getcwd root pattern
                         (path_of root names) f) st0)
           = data st0 ++ [r])
    /\ In r (data (exec (script fs root output_csv pattern) st)).
Proof.
  intros Hcwd Hroot Hin Hnames Hne Hext Himg Hlabel.
  pose proof (PathFacts.relpath_walk getcwd root names Hcwd Hroot Hnames) as Hrel.
  destruct (processed_file fs root output_csv pattern st names f _ image label
              Hroot Hin Hext Himg Hlabel Hrel) as [Hfile Hrun].
  exists (record_of f (relative_folder names) image label). repeat split.
  - cbn. destruct names; [contradiction | reflexivity].
  - intros st0. unfold exec. now rewrite Hfile.
  - exact Hrun.
Qed.

Lemma relpath_self (root : string) :
  Str.is_empty root = false ->
  PosixPath.relpath getcwd root root = Return ".".
Proof.
  intros Hroot. unfold PosixPath.relpath. rewrite Hroot.
  set (l := PosixPath.nonempty_pieces (PosixPath.abspath getcwd root)).
  assert (Hsame : PosixPath.commonprefix l l = l).
  { pose proof (PathFacts.commonprefix_app l []) as H.
    now rewrite app_nil_r in H. }
  rewrite Hsame, Nat.sub_diag, skipn_all. reflexivity.
Qed.

(** C10.  A file [f] with a recognised extension that lies directly in
    the root directory, that decodes and for which the label extraction
    returns: the [folder] of its record is the one-character text [.],
    not the empty text. *)
Theorem folder_of_root_file_is_dot
  (fs : dir) (root output_csv pattern : string) (st : state)
  (f : string) (image : Cv.image) (label : option string) :
  Str.is_empty root = false ->
  In ([], f) (located fs) ->
  is_image_file f = true ->
  imread (PosixPath.join root f) = Some image ->
  get_concentration_label re_search f pattern = Return label ->
  exists r,
    filename r = f
    /\ folder r = "."
    /\ folder r <> ""
    /\ (forall st0,
           data (exec (process_file imread re_search getcwd root pattern root f)
                      st0)
           = data st0 ++ [r])
    /\ In r (data (exec (script fs root output_csv pattern) st)).
Proof.
  intros Hroot Hin Hext Himg Hlabel.
  destruct (processed_file fs root output_csv pattern st [] f _ image label
              Hroot Hin Hext Himg Hlabel (relpath_self root Hroot))
    as [Hfile Hrun].
  exists (record_of f "." image label). repeat split.
  - discriminate.
  - intros st0. unfold exec. pose proof (Hfile st0) as H.
    cbn [path_of fold_left] in H. now rewrite H.
  - exact Hrun.
Qed.

(** C8.  A file with a recognised extension that decodes and in whose
    name the pattern finds no match: the loop body still appends a record
    for it, with no label, and prints a progress line, not a diagnostic;
    the run writes the table, and the record is one of its rows. *)
Theorem unlabelled_image_still_has_a_row
  (fs : dir) (root output_csv pattern : string) (st : state)
  (names : list string) (f : string) (image : Cv.image) :
  Str.is_empty root = false ->
  In (names, f) (located fs) ->
  is_image_file f = true ->
  imread (PosixPath.join (path_of root names) f) = Some image ->
  re_search pattern f = Return None ->
  let final := exec (script fs root output_csv pattern) st in
  exists r,
    filename r = f
    /\ Concentration_Label r = None
    /\ (forall st0,
           process_file imread re_search getcwd root pattern
                        (path_of root names) f st0
           = (Return tt,
              mkState (data st0 ++ [r])
                      (opened st0 ++ [PosixPath.join (path_of root names) f])
                      (stdout st0 ++ [progress_line r]) (written st0)))
    /\ written final = written st ++ [(output_csv, DataFrame (data final))]
    /\ In r (rows (DataFrame (data final))).
Proof.
  intros Hroot Hin Hext Himg Hsearch. cbv zeta.
  assert (Hlabel : get_concentration_label re_search f pattern = Return None).
  { unfold get_concentration_label. now rewrite Hsearch. }
  destruct (relpath_returns getcwd (path_of root names) root
              (path_of_not_empty names root Hroot)) as [rel Hrel].
  destruct (processed_file fs root output_csv pattern st names f rel image None
              Hroot Hin Hext Himg Hlabel Hrel) as [Hfile Hrun].
  exists (record_of f rel image None). repeat split.
  - exact Hfile.
  - rewrite run_written.
    destruct (data _); [contradiction | reflexivity].
  - exact Hrun.
Qed.

End Records.

(** ** Channel means *)

Lemma concat_repeat_repeat {A : Type} (p : A) (w h : nat) :
  List.concat (repeat (repeat p w) h) = repeat p (h * w).
Proof.
  induction h as [|h IH]; cbn [repeat List.concat Nat.mul]; [reflexivity |].
  now rewrite IH, repeat_app.
Qed.

Lemma sum_map_repeat {A : Type} (f : A -> Z) (p : A) (n : nat) :
  fold_right Z.add 0%Z (map f (repeat p n)) = (Z.of_nat n * f p)%Z.
Proof.
  induction n as [|n IH]; [reflexivity |].
  cbn [repeat map fold_right]. rewrite IH. lia.
Qed.

Lemma component_mean_solid (f : Cv.pixel -> Z) (h w : nat) (r g b : Z) :
  0 < h -> 0 < w ->
  component_mean f (Cv.solid h w r g b) = Q2Qc (inject_Z (f (Cv.of_rgb r g b))).
Proof.
  intros Hh Hw. unfold component_mean, Cv.solid.
  rewrite concat_repeat_repeat, sum_map_repeat, repeat_length.
  apply Q2Qc_eq_iff. unfold Qeq, inject_Z. cbn [Qnum Qden].
  destruct (h * w) as [|n] eqn:Hn; [nia |].
  rewrite <- Pos.of_nat_succ, Zpos_P_of_succ_nat. lia.
Qed.

(** C6.  On a file that decodes, [extract_rgb_features] returns, in this
    order, the means over all pixels of the first, second and third stored
    components, which the decoder fills with blue, green and red; on an
    image of one colour of red [r], green [g] and blue [b] they are exactly
    [b], [g] and [r].  The means are exact rationals; the rounding of the
    floating-point quotient is outside the model. *)
Theorem channel_means_in_blue_green_red_order
  (imread : string -> option Cv.image) (image_path : string) (image : Cv.image)
  (st : state) :
  imread image_path = Some image ->
  extract_rgb_features imread image_path st
  = (Return (component_mean (fun p => fst (fst p)) image,
             component_mean (fun p => snd (fst p)) image,
             component_mean (fun p => snd p) image),
     mkState (data st) (opened st ++ [image_path]) (stdout st) (written st))
  /\ (forall h w r g b,
         0 < h -> 0 < w -> image = Cv.solid h w r g b ->
         extract_rgb_features imread image_path st
         = (Return (Q2Qc (inject_Z b), Q2Qc (inject_Z g), Q2Qc (inject_Z r)),
            mkState (data st) (opened st ++ [image_path]) (stdout st)
                    (written st))).
Proof.
  intros Himg.
  assert (Hrun :
            extract_rgb_features imread image_path st
            = (Return (component_mean (fun p => fst (fst p)) image,
                       component_mean (fun p => snd (fst p)) image,
                       component_mean (fun p => snd p) image),
               mkState (data st) (opened st ++ [image_path]) (stdout st)
                       (written st))).
  { rewrite extract_rgb_features_run, Himg.
    destruct (mean_split image) as (Hb & Hg & Hr). now rewrite Hb, Hg, Hr. }
  split; [exact Hrun |].
  intros h w r g b Hh Hw Hsolid. rewrite Hrun, Hsolid.
  now rewrite !component_mean_solid.
Qed.

(** ** The extension filter *)

Lemma is_image_file_iff (name : string) :
  is_image_file name = true
  <-> In (Str.lower (PosixPath.suffix name)) [".jpg"; ".jpeg"; ".png"; ".bmp"].
Proof.
  unfold is_image_file, Str.mem, image_extensions. rewrite existsb_exists. split.
  - intros [x [Hin Heq]]. apply String.eqb_eq in Heq. now subst.
  - intros Hin. exists (Str.lower (PosixPath.suffix name)).
    split; [exact Hin | apply String.eqb_refl].
Qed.

(** C5.  The loop body runs its [try] block on a file exactly when the
    suffix of the name, in lower case, is one of [.jpg], [.jpeg], [.png],
    [.bmp]: such a file is opened; any other file leaves the state as it
    was, so it is neither opened nor recorded nor reported.  Over a run,
    the files opened are the files of the tree with such a suffix, in the
    order of the walk. *)
Theorem only_recognised_extensions_are_processed
  (imread : string -> option Cv.image)
  (re_search : string -> string -> outcome (option Match)) (getcwd : string)
  (fs : dir) (root output_csv pattern dirpath name : string) (st : state) :
  (is_image_file name = true
   <-> In (Str.lower (PosixPath.suffix name)) [".jpg"; ".jpeg"; ".png"; ".bmp"])
  /\ (is_image_file name = false ->
      process_file imread re_search getcwd root pattern dirpath name st
      = (Return tt, st))
  /\ (is_image_file name = true ->
      opened (exec (process_file imread re_search getcwd root pattern dirpath name)
                   st)
      = opened st ++ [PosixPath.join dirpath name])
  /\ (Str.is_empty root = false ->
      opened (exec (process_images_in_directory imread re_search getcwd fs root
                      output_csv pattern) st)
      = opened st
          ++ map (fun q => PosixPath.join (path_of root (fst q)) (snd q))
                 (filter (fun q => is_image_file (snd q)) (located fs))).
Proof.
  split; [apply is_image_file_iff |]. repeat split.
  - intros Hext. rewrite process_file_run. unfold after_file. now rewrite Hext.
  - intros Hext. unfold exec. rewrite process_file_run. unfold after_file.
    rewrite Hext. now destruct (processed_record _ _ _ _ _ _ _ _).
  - intros Hroot. unfold exec. rewrite run_closed_form. cbn [snd].
    assert (Hopened : forall s, opened (after_export output_csv s) = opened s).
    { intros s. unfold after_export. now destruct (data s). }
    rewrite Hopened, traversal_opened, (visited_located root fs Hroot).
    cbn [opened]. f_equal.
    induction (located fs) as [|[names f] l IH]; [reflexivity |].
    cbn [map filter fst snd]. destruct (is_image_file f); cbn [map fst snd];
      now rewrite IH.
Qed.

(** ** The example file system *)

Lemma one_row_per_decodable_image_witness :
  List.length (located example_tree) = 3 + 2
  /\ List.length (data (exec (example_run "([A-Z])_") initial_state)) = 3
  /\ List.length
       (rows (DataFrame (data (exec (example_run "([A-Z])_") initial_state)))) = 3
  /\ written (exec (example_run "([A-Z])_") initial_state)
     = [("rgb_features.csv",
         DataFrame (data (exec (example_run "([A-Z])_") initial_state)))].
Proof.
  refine (one_row_per_decodable_image example_imread re_search_fragment
            "/home/user" example_tree "/data" "rgb_features.csv" "([A-Z])_"
            initial_state eq_refl _).
  cbn [located example_tree map flat_map app fst snd In].
  intros q H _. repeat (destruct H as [H | H]; [subst q; reflexivity |]).
  contradiction.
Defined.

Lemma decode_failure_witness :
  process_file example_imread re_search_fragment "/home/user" "/data" "([A-Z])_"
               "/data/sub" "broken.bmp" initial_state
  = (Return tt,
     mkState [] ["/data/sub/broken.bmp"]
       [Failed "处理图像 /data/sub/broken.bmp 时出错: 无法读取图像: /data/sub/broken.bmp"]
       []).
Proof.
  exact (proj1 (proj2 (decode_failure_is_logged_and_skipped example_imread
                         re_search_fragment "/home/user" example_tree "/data"
                         "rgb_features.csv" "([A-Z])_" "/data/sub" "broken.bmp"
                         initial_state eq_refl eq_refl))).
Defined.

Lemma invalid_pattern_witness :
  process_file example_imread re_search_fragment "/home/user" "/data" "("
               "/data" "B_002.jpg" initial_state
  = (Return tt,
     mkState [] ["/data/B_002.jpg"]
       [Failed "处理图像 /data/B_002.jpg 时出错: missing ), unterminated subpattern at position 0"]
       []).
Proof.
  exact (proj1 (proj2 (every_exception_of_a_file_is_caught example_imread
                         re_search_fragment "/home/user" example_tree "/data"
                         "rgb_features.csv" "(" "/data" "B_002.jpg"
                         (re_error "missing ), unterminated subpattern at position 0")
                         initial_state eq_refl
                         (raises_label example_imread re_search_fragment
                            "/home/user" "/data" "(" "/data" "B_002.jpg"
                            (Cv.solid 2 3 10 20 30) _ eq_refl eq_refl)))).
Defined.

Lemma no_record_witness :
  written (exec (process_images_in_directory example_imread re_search_fragment
                   "/home/user" (Dir [] []) "/data" "rgb_features.csv" "([A-Z])_")
                initial_state) = []
  /\ (exists lines,
         stdout (exec (process_images_in_directory example_imread
                         re_search_fragment "/home/user" (Dir [] []) "/data"
                         "rgb_features.csv" "([A-Z])_") initial_state)
         = lines ++ [NotFound]).
Proof.
  destruct (no_record_no_output_file example_imread re_search_fragment
              "/home/user" (Dir [] []) "/data" "rgb_features.csv" "([A-Z])_"
              initial_state) as [Hempty Hnone].
  destruct (Hempty (Hnone (Forall_nil _))) as (Hwritten & Hlines & _).
  split; [exact Hwritten | exact Hlines].
Defined.

Lemma recognised_extension_witness :
  process_file example_imread re_search_fragment "/home/user" "/data" "([A-Z])_"
               "/data" "notes.txt" initial_state
  = (Return tt, initial_state)
  /\ opened (exec (process_file example_imread re_search_fragment "/home/user"
                     "/data" "([A-Z])_" "/data/sub/dir" "x.PNG") initial_state)
     = ["/data/sub/dir/x.PNG"].
Proof.
  split.
  - exact (proj1 (proj2 (only_recognised_extensions_are_processed example_imread
                           re_search_fragment "/home/user" example_tree "/data"
                           "rgb_features.csv" "([A-Z])_" "/data" "notes.txt"
                           initial_state)) eq_refl).
  - exact (proj1 (proj2 (proj2 (only_recognised_extensions_are_processed
                                  example_imread re_search_fragment "/home/user"
                                  example_tree "/data" "rgb_features.csv"
                                  "([A-Z])_" "/data/sub/dir" "x.PNG"
                                  initial_state))) eq_refl).
Defined.

Lemma solid_colour_witness :
  extract_rgb_features example_imread "/data/B_002.jpg" initial_state
  = (Return (Q2Qc (inject_Z 30), Q2Qc (inject_Z 20), Q2Qc (inject_Z 10)),
     mkState [] ["/data/B_002.jpg"] [] []).
Proof.
  refine (proj2 (channel_means_in_blue_green_red_order example_imread
                   "/data/B_002.jpg" (Cv.solid 2 3 10 20 30) initial_state
                   eq_refl) 2 3 10%Z 20%Z 30%Z _ _ eq_refl); lia.
Defined.

Lemma nested_folder_witness :
  exists r,
    filename r = "x.PNG"
    /\ folder r = "sub/dir"
    /\ (forall st0,
           data (exec (process_file example_imread re_search_fragment "/home/user"
                         "/data" "([A-Z])_" "/data/sub/dir" "x.PNG") st0)
           = data st0 ++ [r])
    /\ In r (data (exec (example_run "([A-Z])_") initial_state)).
Proof.
  refine (folder_is_relative_directory example_imread re_search_fragment
            "/home/user" example_tree "/data" "rgb_features.csv" "([A-Z])_"
            initial_state ["sub"; "dir"] "x.PNG" (Cv.solid 4 4 1 2 3) None
            eq_refl eq_refl _ _ _ eq_refl eq_refl eq_refl).
  - cbn. tauto.
  - repeat constructor.
  - discriminate.
Defined.

Lemma root_folder_witness :
  exists r,
    filename r = "B_002.jpg"
    /\ folder r = "."
    /\ folder r <> ""
    /\ (forall st0,
           data (exec (process_file example_imread re_search_fragment "/home/user"
                         "/data" "([A-Z])_" "/data" "B_002.jpg") st0)
           = data st0 ++ [r])
    /\ In r (data (exec (example_run "([A-Z])_") initial_state)).
Proof.
  refine (folder_of_root_file_is_dot example_imread re_search_fragment
            "/home/user" example_tree "/data" "rgb_features.csv" "([A-Z])_"
            initial_state "B_002.jpg" (Cv.solid 2 3 10 20 30) (Some "B")
            eq_refl _ eq_refl eq_refl eq_refl).
  cbn. tauto.
Defined.

Lemma unlabelled_image_witness :
  exists r,
    filename r = "sample.png"
    /\ Concentration_Label r = None
    /\ (forall st0,
           process_file example_imread re_search_fragment "/home/user" "/data"
                        "([A-Z])_" "/data/sub" "sample.png" st0
           = (Return tt,
              mkState (data st0 ++ [r]) (opened st0 ++ ["/data/sub/sample.png"])
                      (stdout st0 ++ [progress_line r]) (written st0)))
    /\ written (exec (example_run "([A-Z])_") initial_state)
       = [("rgb_features.csv",
           DataFrame (data (exec (example_run "([A-Z])_") initial_state)))]
    /\ In r (rows (DataFrame (data (exec (example_run "([A-Z])_") initial_state)))).
Proof.
  refine (unlabelled_image_still_has_a_row example_imread re_search_fragment
            "/home/user" example_tree "/data" "rgb_features.csv" "([A-Z])_"
            initial_state ["sub"] "sample.png" (Cv.solid 1 1 255 0 7)
            eq_refl _ eq_refl eq_refl eq_refl).
  cbn. tauto.
Defined.

(** ** The matcher against the language of a pattern *)

Module ReFacts.

Import Re.

Lemma set_capture_length (n : nat) (v : list ascii) (c : captures) :
  List.length (set_capture n v c) = List.length c.
Proof.
  revert n. induction c as [|x c IH]; intros [|n]; cbn; auto.
Qed.

Lemma consumed_app (w s1 : list ascii) : consumed (w ++ s1) s1 = w.
Proof.
  unfold consumed. rewrite length_app, Nat.add_sub.
  rewrite firstn_app, Nat.sub_diag, firstn_all. cbn. apply app_nil_r.
Qed.

(** *** Soundness: a successful run has read a word of the language *)

Lemma iterate_sound {X : Type} (r : regex)
  (body : list ascii -> captures -> (list ascii -> captures -> option X) -> option X) :
  (forall s c k x,
      body s c k = Some x ->
      exists w s1 c1,
        s = w ++ s1 /\ denotes r w /\ List.length c1 = List.length c
        /\ k s1 c1 = Some x) ->
  forall fuel s c k x,
    iterate body fuel s c k = Some x ->
    exists w s1 c1,
      s = w ++ s1 /\ denotes (Star r) w /\ List.length c1 = List.length c
      /\ k s1 c1 = Some x.
Proof.
  intros Hbody. induction fuel as [|fuel IH]; intros s c k x; cbn [iterate].
  - intros Hk. exists [], s, c. repeat split; [constructor | exact Hk].
  - destruct (body s c _) as [x0|] eqn:Hrun.
    + intros Hx. injection Hx as ->.
      destruct (Hbody _ _ _ _ Hrun) as (w1 & s1 & c1 & Hs & Hw1 & Hc1 & Hk).
      destruct (List.length s1 <? List.length s)%nat; [|discriminate].
      destruct (IH _ _ _ _ Hk) as (w2 & s2 & c2 & Hs1 & Hw2 & Hc2 & Hk2).
      exists (w1 ++ w2), s2, c2. repeat split.
      * now rewrite <- app_assoc, <- Hs1.
      * now constructor.
      * congruence.
      * exact Hk2.
    + intros Hk. exists [], s, c. repeat split; [constructor | exact Hk].
Qed.

Lemma run_sound (r : regex) :
  forall (X : Type) s c (k : list ascii -> captures -> option X) x,
    run r s c k = Some x ->
    exists w s1 c1,
      s = w ++ s1 /\ denotes r w /\ List.length c1 = List.length c
      /\ k s1 c1 = Some x.
Proof.
  induction r as [|a|ranges|r1 IH1 r2 IH2|r1 IH1 r2 IH2|r1 IH1|n r1 IH1];
    intros X s c k x; cbn [run].
  - intros Hk. exists [], s, c. repeat split; [constructor | exact Hk].
  - destruct s as [|y s1]; [discriminate |].
    destruct (Ascii.eqb y a) eqn:Hy; [|discriminate].
    apply Ascii.eqb_eq in Hy. subst y. intros Hk.
    exists [a], s1, c. repeat split; [constructor | exact Hk].
  - destruct s as [|y s1]; [discriminate |].
    destruct (in_ranges y ranges) eqn:Hy; [|discriminate]. intros Hk.
    exists [y], s1, c. repeat split; [now constructor | exact Hk].
  - intros Hrun.
    destruct (IH1 _ _ _ _ _ Hrun) as (w1 & s1 & c1 & Hs & Hw1 & Hc1 & Hrun2).
    destruct (IH2 _ _ _ _ _ Hrun2) as (w2 & s2 & c2 & Hs1 & Hw2 & Hc2 & Hk).
    exists (w1 ++ w2), s2, c2. repeat split.
    + now rewrite <- app_assoc, <- Hs1.
    + now constructor.
    + congruence.
    + exact Hk.
  - destruct (run r1 s c k) as [x0|] eqn:Hrun1.
    + intros Hx. injection Hx as ->.
      destruct (IH1 _ _ _ _ _ Hrun1) as (w & s1 & c1 & Hs & Hw & Hc & Hk).
      exists w, s1, c1. repeat split; try assumption. now apply D_Alt_l.
    + intros Hrun2.
      destruct (IH2 _ _ _ _ _ Hrun2) as (w & s1 & c1 & Hs & Hw & Hc & Hk).
      exists w, s1, c1. repeat split; try assumption. now apply D_Alt_r.
  - apply (iterate_sound r1). intros s0 c0 k0 x0. apply IH1.
  - intros Hrun.
    destruct (IH1 _ _ _ _ _ Hrun) as (w & s1 & c1 & Hs & Hw & Hc & Hk).
    exists w, s1, (set_capture (n - 1) (consumed s s1) c1). repeat split.
    + exact Hs.
    + now constructor.
    + now rewrite set_capture_length.
    + exact Hk.
Qed.

(** *** Failure does not depend on the captures *)

Lemma iterate_blind {X : Type}
  (body : list ascii -> captures -> (list ascii -> captures -> option X) -> option X) :
  (forall k, blind k -> blind (fun s c => body s c k)) ->
  forall fuel k, blind k -> blind (fun s c => iterate body fuel s c k).
Proof.
  intros Hbody. induction fuel as [|fuel IH]; intros k Hk s c c'; cbn [iterate].
  - apply Hk.
  - set (k1 := fun s1 c1 =>
                 if (List.length s1 <? List.length s)%nat
                 then iterate body fuel s1 c1 k else None).
    assert (Hk1 : blind k1).
    { intros s1 c1 c1'. unfold k1.
      destruct (List.length s1 <? List.length s)%nat; [apply (IH k Hk) | easy]. }
    destruct (body s c k1) eqn:Hrun; [discriminate |].
    intros Hkc. rewrite (Hbody k1 Hk1 s c c' Hrun). exact (Hk s c c' Hkc).
Qed.

Lemma run_blind (r : regex) :
  forall (X : Type) (k : list ascii -> captures -> option X),
    blind k -> blind (fun s c => run r s c k).
Proof.
  induction r as [|a|ranges|r1 IH1 r2 IH2|r1 IH1 r2 IH2|r1 IH1|n r1 IH1];
    intros X k Hk s c c'; cbn [run].
  - apply Hk.
  - destruct s as [|y s1]; [easy |]. destruct (Ascii.eqb y a); [apply Hk | easy].
  - destruct s as [|y s1]; [easy |].
    destruct (in_ranges y ranges); [apply Hk | easy].
  - apply (IH1 X (fun s1 c1 => run r2 s1 c1 k)). now apply IH2.
  - destruct (run r1 s c k) eqn:Hrun1; [discriminate |].
    intros Hrun2. rewrite (IH1 X k Hk s c c' Hrun1). now apply (IH2 X k Hk s c c').
  - apply (iterate_blind (run r1)); [|exact Hk]. intros k0. apply IH1.
  - apply (IH1 X (fun s1 c1 => k s1 (set_capture (n - 1) (consumed s s1) c1))).
    intros s1 c1 c1'. apply Hk.
Qed.

(** *** Completeness: a word of the language is found *)

Lemma star_inv (r : regex) (w : list ascii) :
  denotes (Star r) w ->
  w = []
  \/ exists w1 w2,
      w1 <> [] /\ w = w1 ++ w2 /\ denotes r w1 /\ denotes (Star r) w2.
Proof.
  intros H. remember (Star r) as e eqn:He.
  induction H as [| | | | | | r0 | r0 w1 w2 H1 _ H2 IH2 | ]; try discriminate.
  - now left.
  - injection He as ->. destruct w1 as [|a w1].
    + cbn. now apply IH2.
    + right. exists (a :: w1), w2. repeat split; [discriminate | assumption ..].
Qed.

Lemma iterate_complete {X : Type} (r : regex)
  (body : list ascii -> captures -> (list ascii -> captures -> option X) -> option X) :
  (forall k, blind k -> blind (fun s c => body s c k)) ->
  (forall w s1 c c1 k,
      blind k -> denotes r w -> k s1 c1 <> None -> body (w ++ s1) c k <> None) ->
  forall fuel w s1 c c1 k,
    blind k -> denotes (Star r) w -> k s1 c1 <> None ->
    List.length (w ++ s1) <= fuel ->
    iterate body fuel (w ++ s1) c k <> None.
Proof.
  intros Hblind Hbody. induction fuel as [|fuel IH];
    intros w s1 c c1 k Hk Hw Hk1 Hlen; cbn [iterate].
  - destruct w; [|cbn in Hlen; lia]. cbn. intros Hnone. apply Hk1.
    exact (Hk s1 c c1 Hnone).
  - destruct (star_inv r w Hw) as [-> | (w1 & w2 & Hne & -> & Hw1 & Hw2)].
    + cbn [app]. destruct (body s1 c _); [discriminate |].
      intros Hnone. apply Hk1. exact (Hk s1 c c1 Hnone).
    + rewrite <- app_assoc.
      set (k1 := fun s2 c2 =>
                   if (List.length s2 <? List.length (w1 ++ w2 ++ s1))%nat
                   then iterate body fuel s2 c2 k else None).
      assert (Hk1' : blind k1).
      { intros s2 c2 c2'. unfold k1. destruct (_ <? _)%nat; [|easy].
        apply (iterate_blind body Hblind fuel k Hk). }
      assert (Hpos : List.length w1 <> 0) by (destruct w1; [congruence | discriminate]).
      assert (Hrun : body (w1 ++ (w2 ++ s1)) c k1 <> None).
      { apply (Hbody w1 (w2 ++ s1) c c k1 Hk1' Hw1). unfold k1.
        replace (List.length (w2 ++ s1) <? List.length (w1 ++ w2 ++ s1))%nat
          with true by (symmetry; apply Nat.ltb_lt; rewrite (length_app w1); lia).
        apply (IH w2 s1 c c1 k Hk Hw2 Hk1).
        rewrite <- app_assoc, (length_app w1) in Hlen. lia. }
      destruct (body (w1 ++ w2 ++ s1) c k1); [discriminate | contradiction].
Qed.

Lemma run_complete (r : regex) :
  forall (X : Type) w s1 c c1 (k : list ascii -> captures -> option X),
    blind k -> denotes r w -> k s1 c1 <> None -> run r (w ++ s1) c k <> None.
Proof.
  induction r as [|a|ranges|r1 IH1 r2 IH2|r1 IH1 r2 IH2|r1 IH1|n r1 IH1];
    intros X w s1 c c1 k Hk Hw Hk1; cbn [run].
  - inversion Hw; subst. cbn. intros Hnone. apply Hk1. exact (Hk s1 c c1 Hnone).
  - inversion Hw; subst. cbn. rewrite Ascii.eqb_refl.
    intros Hnone. apply Hk1. exact (Hk s1 c c1 Hnone).
  - inversion Hw as [| |rs y Hy| | | | | |]; subst. cbn. rewrite Hy.
    intros Hnone. apply Hk1. exact (Hk s1 c c1 Hnone).
  - inversion Hw as [| | |e1 e2 w1 w2 Hw1 Hw2| | | | |]; subst.
    rewrite <- app_assoc.
    apply (IH1 X w1 (w2 ++ s1) c c (fun s2 c2 => run r2 s2 c2 k)).
    + now apply run_blind.
    + exact Hw1.
    + now apply (IH2 X w2 s1 c c1 k).
  - inversion Hw as [| | | |e1 e2 w0 Hw1|e1 e2 w0 Hw2| | |]; subst.
    + pose proof (IH1 X w s1 c c1 k Hk Hw1 Hk1) as Hrun.
      destruct (run r1 (w ++ s1) c k); [discriminate | contradiction].
    + destruct (run r1 (w ++ s1) c k); [discriminate |].
      now apply (IH2 X w s1 c c1 k).
  - apply (iterate_complete r1 (run r1)) with (c1 := c1); try assumption.
    + intros k0. apply run_blind.
    + intros w0 s0 c0 c0' k0. apply IH1.
    + apply Nat.le_refl.
  - inversion Hw as [| | | | | | | |m e w0 Hw0]; subst.
    apply (IH1 X w s1 c c
             (fun s2 c2 => k s2 (set_capture (n - 1) (consumed (w ++ s1) s2) c2)));
      [| exact Hw0 |].
    + intros s2 c2 c2'. apply Hk.
    + intros Hnone. apply Hk1. exact (Hk s1 _ c1 Hnone).
Qed.

(** *** The search *)

Lemma scan_sound (r : regex) (ngroups : nat) (s : list ascii)
  (m : list ascii * captures) :
  scan r ngroups s = Some m ->
  (exists before after, s = before ++ fst m ++ after /\ denotes r (fst m))
  /\ List.length (snd m) = ngroups.
Proof.
  induction s as [|a s IH]; cbn [scan].
  - destruct (run r [] _ _) as [m0|] eqn:Hrun; [|discriminate].
    intros Hm. injection Hm as ->.
    destruct (run_sound r _ _ _ _ _ Hrun) as (w & s1 & c1 & Hs & Hw & Hc & Hk).
    injection Hk as <-. cbn [fst snd]. rewrite repeat_length in Hc.
    rewrite Hs, consumed_app. split; [|exact Hc]. now exists [], s1.
  - destruct (run r (a :: s) _ _) as [m0|] eqn:Hrun.
    + intros Hm. injection Hm as ->.
      destruct (run_sound r _ _ _ _ _ Hrun) as (w & s1 & c1 & Hs & Hw & Hc & Hk).
      injection Hk as <-. cbn [fst snd]. rewrite repeat_length in Hc.
      rewrite Hs, consumed_app. split; [|exact Hc]. now exists [], s1.
    + intros Hm. destruct (IH Hm) as [(before & after & Hs & Hw) Hc].
      split; [|exact Hc]. exists (a :: before), after. now rewrite Hs.
Qed.

Lemma scan_complete (r : regex) (ngroups : nat) (s : list ascii) :
  matches_anywhere r s -> scan r ngroups s <> None.
Proof.
  intros (before & w & after & -> & Hw).
  assert (Hhere :
            forall s0,
              run r (w ++ after) (repeat None ngroups)
                  (fun s1 c1 => Some (consumed s0 s1, c1)) <> None).
  { intros s0. apply (run_complete r _ w after _ (repeat None ngroups)).
    - intros s1 c1 c1'. discriminate.
    - exact Hw.
    - discriminate. }
  induction before as [|a before IH]; cbn [app].
  - destruct (w ++ after) as [|a l] eqn:Hwa; cbn [scan].
    + specialize (Hhere []). destruct (run r [] _ _); [discriminate | contradiction].
    + specialize (Hhere (a :: l)).
      destruct (run r (a :: l) _ _); [discriminate | contradiction].
  - cbn [scan]. destruct (run r _ _ _); [discriminate | exact IH].
Qed.

End ReFacts.

(** ** The label *)

Lemma get_concentration_label_fragment (pattern file_name : string) (r : Re.regex) :
  Re.compile pattern = Re.Ok (r, 1) ->
  match Re.scan r 1 (list_ascii_of_string file_name) with
  | Some m =>
      exists g,
        re_search_fragment pattern file_name = Return (Some (Re.to_match m))
        /\ groups (Re.to_match m) = [g]
        /\ get_concentration_label re_search_fragment file_name pattern = Return g
  | None =>
      get_concentration_label re_search_fragment file_name pattern = Return None
  end.
Proof.
  intros Hcompile.
  unfold get_concentration_label, re_search_fragment, Re.search.
  rewrite Hcompile.
  destruct (Re.scan r 1 (list_ascii_of_string file_name)) as [m|] eqn:Hscan;
    [|reflexivity].
  destruct (ReFacts.scan_sound r 1 _ m Hscan) as [_ Hlen].
  destruct m as [w [|g0 [|g1 c]]]; try discriminate.
  exists (option_map string_of_list_ascii g0). repeat split.
Qed.

(** C2.  When [re.search] finds a match of a pattern with one capturing
    group, [get_concentration_label] returns what that group holds; when it
    finds none, it returns [None] and raises nothing.  This holds for any
    behaviour of [re.search]; on the fragment, where a pattern has a
    language, a match is found exactly when some part of the file name
    belongs to the language of the pattern.  With the pattern [([A-Z])_]
    the label of [B_002.jpg] is [B] and [sample.png] has none. *)
Theorem label_is_first_group_or_none :
  (forall (re_search : string -> string -> outcome (option Match))
          (file_name pattern : string),
      (forall m g,
          re_search pattern file_name = Return (Some m) ->
          groups m = [g] ->
          get_concentration_label re_search file_name pattern = Return g)
      /\ (re_search pattern file_name = Return None ->
          get_concentration_label re_search file_name pattern = Return None))
  /\ (forall (pattern file_name : string) (r : Re.regex),
         Re.compile pattern = Re.Ok (r, 1) ->
         (matches_anywhere r (list_ascii_of_string file_name) ->
          exists m g,
            re_search_fragment pattern file_name = Return (Some m)
            /\ groups m = [g]
            /\ get_concentration_label re_search_fragment file_name pattern
               = Return g)
         /\ (~ matches_anywhere r (list_ascii_of_string file_name) ->
             get_concentration_label re_search_fragment file_name pattern
             = Return None))
  /\ get_concentration_label re_search_fragment "B_002.jpg" "([A-Z])_"
     = Return (Some "B")
  /\ get_concentration_label re_search_fragment "sample.png" "([A-Z])_"
     = Return None.
Proof.
  split; [|split; [|split; reflexivity]].
  - intros re_search file_name pattern. split.
    + intros m g Hsearch Hgroups. unfold get_concentration_label.
      rewrite Hsearch. cbn [obind]. unfold group. now rewrite Hgroups.
    + intros Hsearch. unfold get_concentration_label. now rewrite Hsearch.
  - intros pattern file_name r Hcompile.
    pose proof (get_concentration_label_fragment pattern file_name r Hcompile)
      as Hlabel.
    destruct (Re.scan r 1 (list_ascii_of_string file_name)) as [m|] eqn:Hscan.
    + split.
      * intros _. destruct Hlabel as (g & Hsearch & Hgroups & Hg).
        now exists (Re.to_match m), g.
      * intros Hnone. exfalso. apply Hnone.
        destruct (ReFacts.scan_sound r 1 _ m Hscan)
          as [(before & after & Hs & Hw) _].
        now exists before, (fst m), after.
    + split.
      * intros Hsome. exfalso.
        exact (ReFacts.scan_complete r 1 _ Hsome Hscan).
      * intros _. exact Hlabel.
Qed.

Lemma label_witness :
  exists m g,
    re_search_fragment "([A-Z])_" "A_sample1.png" = Return (Some m)
    /\ groups m = [g]
    /\ get_concentration_label re_search_fragment "A_sample1.png" "([A-Z])_"
       = Return g.
Proof.
  refine (proj1 (proj1 (proj2 label_is_first_group_or_none) "([A-Z])_"
                   "A_sample1.png" _ eq_refl) _).
  exists [], ["A"; "_"]%char, (list_ascii_of_string "sample1.png").
  split; [reflexivity |].
  apply (D_Cat _ _ ["A"%char] ["_"%char]); repeat constructor.
Defined.

(** ** The script on the example file system *)

Example example_records :
  map (fun r => (filename r, folder r, Concentration_Label r))
      (data (exec (example_run "([A-Z])_") initial_state))
  = [("B_002.jpg", ".", Some "B");
     ("sample.png", "sub", None);
     ("x.PNG", "sub/dir", None)].
Proof. reflexivity. Qed.

Example example_opened :
  opened (exec (example_run "([A-Z])_") initial_state)
  = ["/data/B_002.jpg"; "/data/sub/sample.png"; "/data/sub/broken.bmp";
     "/data/sub/dir/x.PNG"].
Proof. reflexivity. Qed.

Example example_invalid_pattern :
  data (exec (example_run "(") initial_state) = []
  /\ written (exec (example_run "(") initial_state) = []
  /\ last (stdout (exec (example_run "(") initial_state)) NotFound = NotFound.
Proof. repeat split. Qed.

Example example_suffixes :
  map is_image_file
      ["x.PNG"; "a.JPEG"; "archive.tar.bmp"; "photo.jpg.txt"; ".png"; "png"; "a.jpg."]
  = [true; true; true; false; false; false; false].
Proof. reflexivity. Qed.

Example example_relpath :
  PosixPath.relpath "/home/user" "pictures/./2024//run1" "pictures"
  = Return "2024/run1".
Proof. reflexivity. Qed.

(** * Further properties of the script *)

(** ** Relative paths are never empty *)

Lemma In_skipn {A : Type} (x : A) (n : nat) (l : list A) :
  In x (skipn n l) -> In x l.
Proof.
  revert l. induction n as [|n IH]; intros [|y l]; cbn; auto.
Qed.

Lemma join_all_not_empty (x : string) (l : list string) :
  Str.is_empty x = false -> Str.is_empty (PosixPath.join_all (x :: l)) = false.
Proof. intros Hx. exact (path_of_not_empty l x Hx). Qed.

Lemma relpath_not_empty (cwd path start rel : string) :
  PosixPath.relpath cwd path start = Return rel -> Str.is_empty rel = false.
Proof.
  unfold PosixPath.relpath. destruct (Str.is_empty path); [discriminate |].
  set (start_list := PosixPath.nonempty_pieces (PosixPath.abspath cwd start)).
  set (path_list := PosixPath.nonempty_pieces (PosixPath.abspath cwd path)).
  set (i := List.length (PosixPath.commonprefix start_list path_list)).
  destruct (repeat PosixPath.pardir (List.length start_list - i)
              ++ skipn i path_list) as [|x l] eqn:Hrel.
  - intros H. injection H as <-. reflexivity.
  - intros H. injection H as <-. apply join_all_not_empty.
    assert (Hin : In x (repeat PosixPath.pardir (List.length start_list - i)
                          ++ skipn i path_list)) by (rewrite Hrel; now left).
    apply in_app_or in Hin as [Hin | Hin].
    + apply repeat_spec in Hin. now subst x.
    + apply In_skipn in Hin. unfold path_list, PosixPath.nonempty_pieces in Hin.
      apply filter_In in Hin as [_ Hx]. now apply negb_true_iff in Hx.
Qed.

(** ** Rows, console lines and files without a record *)

Section Coverage.

Variable imread : string -> option Cv.image.
Variable re_search : string -> string -> outcome (option Match).
Variable getcwd : string.

Local Notation "'script'" :=
  (process_images_in_directory imread re_search getcwd).

Lemma traversal_stdout (root pattern : string) (l : list (string * string)) :
  forall st,
    stdout (fold_left (after_file imread re_search getcwd root pattern) l st)
    = stdout st ++ flat_map (lines_of imread re_search getcwd root pattern) l.
Proof.
  induction l as [|[dirpath name] l IH]; intros st; cbn [fold_left flat_map].
  - now rewrite app_nil_r.
  - rewrite IH. unfold after_file, lines_of.
    destruct (is_image_file name); [|reflexivity].
    destruct (processed_record _ _ _ _ _ _ _ _); cbn [stdout];
      now rewrite <- app_assoc.
Qed.

Lemma records_filenames (root pattern : string) (l : list (list string * string)) :
  Str.is_empty root = false ->
  (forall q, In q l -> is_image_file (snd q) = true ->
             returns (get_concentration_label re_search (snd q) pattern) = true) ->
  map filename
      (flat_map (records_of imread re_search getcwd root pattern)
                (map (fun q : list string * string =>
                        (path_of root (fst q), snd q)) l))
  = map snd (filter (decodable_image imread root) l).
Proof.
  intros Hroot. induction l as [|[names f] l IH]; intros Hlabel.
  - reflexivity.
  - cbn [map flat_map filter fst snd]. rewrite map_app, IH.
    2:{ intros q Hq. apply Hlabel. now right. }
    unfold records_of, decodable_image, processed_record. cbn [fst snd].
    destruct (is_image_file f) eqn:Hext; [|reflexivity].
    destruct (imread _) as [image|]; [|reflexivity].
    cbn [Cv.split is_some andb].
    specialize (Hlabel (names, f) (or_introl eq_refl) Hext). cbn [snd] in Hlabel.
    destruct (get_concentration_label re_search f pattern) as [label|];
      [|discriminate].
    cbn [obind].
    destruct (relpath_returns getcwd (path_of root names) root
                (path_of_not_empty names root Hroot)) as [rel Hrel].
    rewrite Hrel. reflexivity.
Qed.

(** X1.  The rows come in the order of the walk: the [filename] column
    lists the files with a recognised extension that decode, the files of
    a directory before those of its subdirectories, each directory in the
    order of its listing.  The label extraction is assumed to raise
    nothing on the image files. *)
Theorem rows_follow_the_walk
  (fs : dir) (root output_csv pattern : string) (st : state) :
  Str.is_empty root = false ->
  (forall q, In q (located fs) -> is_image_file (snd q) = true ->
             returns (get_concentration_label re_search (snd q) pattern) = true) ->
  let final := exec (script fs root output_csv pattern) st in
  map filename (data final)
  = map snd (filter (decodable_image imread root) (located fs))
  /\ exists new,
      written final = written st ++ new
      /\ Forall (fun e : string * table =>
                   map filename (rows (snd e))
                   = map snd (filter (decodable_image imread root) (located fs)))
                new.
Proof.
  intros Hroot Hlabel. cbv zeta.
  assert (Hnames :
            map filename (data (exec (script fs root output_csv pattern) st))
            = map snd (filter (decodable_image imread root) (located fs))).
  { rewrite run_data, (visited_located root fs Hroot).
    now apply records_filenames. }
  split; [exact Hnames |].
  rewrite run_written.
  destruct (data (exec (script fs root output_csv pattern) st)) eqn:Hdata.
  - exists []. split; constructor.
  - eexists. split; [reflexivity |]. repeat constructor. exact Hnames.
Qed.

(** X2.  Every row comes from a file of the tree: a file with a recognised
    extension that was opened and decoded; its three numbers are the means
    of the stored components of that image, its label is what the label
    extraction returned, and its folder is what [relpath] returned, which
    is never the empty text. *)
Theorem every_row_comes_from_a_decoded_file
  (fs : dir) (root output_csv pattern : string) (st : state) (r : ImageRecord) :
  Str.is_empty root = false ->
  In r (data (exec (script fs root output_csv pattern) st)) ->
  exists names image,
    In (names, filename r) (located fs)
    /\ is_image_file (filename r) = true
    /\ imread (PosixPath.join (path_of root names) (filename r)) = Some image
    /\ In (PosixPath.join (path_of root names) (filename r))
          (opened (exec (script fs root output_csv pattern) st))
    /\ r = record_of (filename r) (folder r) image (Concentration_Label r)
    /\ get_concentration_label re_search (filename r) pattern
       = Return (Concentration_Label r)
    /\ PosixPath.relpath getcwd (path_of root names) root = Return (folder r)
    /\ folder r <> "".
Proof.
  intros Hroot Hin. rewrite run_data, (visited_located root fs Hroot) in Hin.
  apply in_flat_map in Hin as [[dirpath f] [Hentry Hrec]].
  apply in_map_iff in Hentry as [[names f'] [Heq Hloc]].
  cbn [fst snd] in Heq. injection Heq as <- <-.
  unfold records_of in Hrec.
  destruct (is_image_file f') eqn:Hext; [|contradiction].
  unfold processed_record in Hrec.
  destruct (imread (PosixPath.join (path_of root names) f')) as [image|] eqn:Himg;
    [|contradiction].
  cbn [Cv.split] in Hrec.
  destruct (get_concentration_label re_search f' pattern) as [label|] eqn:Hlabel;
    [|contradiction].
  cbn [obind] in Hrec.
  destruct (PosixPath.relpath getcwd (path_of root names) root) as [rel|] eqn:Hrel;
    [|contradiction].
  cbn [obind] in Hrec. destruct Hrec as [<- | []]. cbn [filename folder].
  exists names, image. repeat split; try assumption.
  - unfold exec. rewrite run_closed_form. cbn [snd].
    assert (Hopened : forall s, opened (after_export output_csv s) = opened s).
    { intros s. unfold after_export. now destruct (data s). }
    rewrite Hopened, traversal_opened, (visited_located root fs Hroot).
    apply in_or_app. right.
    apply (in_map (fun e : string * string => PosixPath.join (fst e) (snd e))
             _ (path_of root names, f')).
    apply filter_In. split; [|exact Hext].
    apply (in_map (fun q : list string * string =>
                     (path_of root (fst q), snd q)) _ _ Hloc).
  - destruct (mean_split image) as (Hb & Hg & Hr).
    unfold record_of. now rewrite <- Hb, <- Hg, <- Hr.
  - intros Hempty. pose proof (relpath_not_empty _ _ _ _ Hrel) as Hne.
    now rewrite Hempty in Hne.
Qed.

End Coverage.

(** ** What the console shows *)

Section Console.

Variable imread : string -> option Cv.image.
Variable re_search : string -> string -> outcome (option Match).
Variable getcwd : string.

Local Notation "'script'" :=
  (process_images_in_directory imread re_search getcwd).

Lemma lines_and_records (root pattern : string) (l : list (string * string)) :
  let lines := flat_map (lines_of imread re_search getcwd root pattern) l in
  let records := flat_map (records_of imread re_search getcwd root pattern) l in
  List.length lines = List.length (filter (fun e => is_image_file (snd e)) l)
  /\ List.length (filter is_progress lines) = List.length records
  /\ List.length (filter is_diagnostic lines)
     = List.length lines - List.length records
  /\ filter is_progress lines = map progress_line records.
Proof.
  cbv zeta. induction l as [|[dirpath name] l (IH1 & IH2 & IH3 & IH4)].
  - repeat split.
  - cbn [flat_map filter fst snd].
    set (L := flat_map (lines_of imread re_search getcwd root pattern) l) in *.
    set (R := flat_map (records_of imread re_search getcwd root pattern) l) in *.
    set (F := filter (fun e : string * string => is_image_file (snd e)) l) in *.
    assert (Hle : List.length R <= List.length L).
    { rewrite <- IH2. apply filter_length_le. }
    rewrite !filter_app, !length_app, map_app, IH4.
    unfold lines_of, records_of.
    destruct (is_image_file name);
      [destruct (processed_record _ _ _ _ _ _ _ _) |];
      cbn [filter is_progress is_diagnostic progress_line diagnostic
             List.length map app];
      rewrite ?length_map; rewrite ?IH4 in IH2; rewrite ?length_map in IH2;
      repeat split; lia.
Qed.

(** X3.  During the traversal the script prints exactly one line for each
    file with a recognised extension, and none for the other files: a
    progress line when the file gives a row, a diagnostic otherwise.  So
    the progress lines are as many as the rows, each made from its row,
    and the diagnostics are as many as the image files that give no row.
    The lines that follow, printed by the export, are of neither kind. *)
Theorem one_console_line_per_image_file
  (fs : dir) (root output_csv pattern : string) (st : state) :
  Str.is_empty root = false ->
  let final := exec (script fs root output_csv pattern) st in
  let images := filter (fun q => is_image_file (snd q)) (located fs) in
  exists lines summary,
    stdout final = stdout st ++ lines ++ summary
    /\ List.length lines = List.length images
    /\ filter is_progress lines = map progress_line (data final)
    /\ List.length (filter is_diagnostic lines)
       = List.length images - List.length (data final)
    /\ Forall (fun l => is_progress l = false /\ is_diagnostic l = false) summary.
Proof.
  intros Hroot. cbv zeta.
  pose proof (lines_and_records root pattern (visited root fs)) as Hlines.
  cbv zeta in Hlines. destruct Hlines as (Hlen & _ & Hdiag & Hprog).
  rewrite <- run_data with (output_csv := output_csv) (st := st) in Hdiag, Hprog.
  assert (Himages :
            List.length (filter (fun e : string * string => is_image_file (snd e))
                                (visited root fs))
            = List.length (filter (fun q : list string * string =>
                                     is_image_file (snd q)) (located fs))).
  { rewrite (visited_located root fs Hroot).
    induction (located fs) as [|[names f] l IH]; [reflexivity |].
    cbn [map filter fst snd]. destruct (is_image_file f); cbn [List.length];
      now rewrite IH. }
  rewrite Himages in Hlen. rewrite Hlen in Hdiag.
  exists (flat_map (lines_of imread re_search getcwd root pattern)
                   (visited root fs)).
  unfold exec in *. rewrite run_closed_form in *. cbn [snd] in *.
  unfold after_export in *.
  destruct (data (fold_left _ _ _)) eqn:Hdata; cbn [stdout data] in *;
    rewrite traversal_stdout; cbn [stdout]; rewrite <- app_assoc;
    eexists; (split; [reflexivity |]); repeat split; try assumption;
    repeat constructor.
Qed.


(** X5.  A file that gives no row, because its extension is not recognised
    or because its [try] block raises, does not change the rows of the
    other files of the directory: the rows are those of the listing
    without it. *)
Theorem a_file_without_row_leaves_the_other_rows
  (root pattern dirpath name : string) (before following : list string)
  (st : state) :
  is_image_file name = false
  \/ (exists e,
         try_block_raises imread re_search getcwd root pattern dirpath name e) ->
  data (exec (for_each (before ++ name :: following)
                (process_file imread re_search getcwd root pattern dirpath)) st)
  = data (exec (for_each (before ++ following)
                  (process_file imread re_search getcwd root pattern dirpath)) st).
Proof.
  intros Hnone.
  assert (Hempty :
            records_of imread re_search getcwd root pattern (dirpath, name) = []).
  { unfold records_of. destruct Hnone as [Hext | [e Hraise]].
    - now rewrite Hext.
    - rewrite (try_block_raises_record _ _ _ _ _ _ _ _ Hraise).
      now destruct (is_image_file name). }
  assert (Hloop :
            forall l,
              data (exec (for_each l
                            (process_file imread re_search getcwd root pattern
                                          dirpath)) st)
              = data st
                  ++ flat_map (records_of imread re_search getcwd root pattern)
                              (map (fun f => (dirpath, f)) l)).
  { intros l. unfold exec.
    rewrite (for_each_fold _
               (fun st f =>
                  after_file imread re_search getcwd root pattern st (dirpath, f))).
    - cbn [snd]. rewrite <- fold_left_map. apply traversal_data.
    - intros f st0. apply process_file_run. }
  rewrite !Hloop, !map_app, !flat_map_app. cbn [map flat_map].
  now rewrite Hempty.
Qed.

End Console.

(** ** Which names are image files *)

Lemma substring_drop (i : nat) (s : string) :
  String.substring 0 i s +++ Str.drop i s = s.
Proof.
  revert s. induction i as [|i IH]; intros [|a s]; cbn; try reflexivity.
  now rewrite IH.
Qed.

Lemma drop_append (a b : string) : Str.drop (String.length a) (a +++ b) = b.
Proof. induction a as [|x a IH]; [now destruct b | exact IH]. Qed.

Lemma length_append (a b : string) :
  String.length (a +++ b) = String.length a + String.length b.
Proof. induction a as [|x a IH]; cbn; [reflexivity | now rewrite IH]. Qed.

Lemma rfind_append (c : ascii) (stem rest : string) :
  Str.rfind c rest = None ->
  Str.rfind c (stem +++ String c rest) = Some (String.length stem).
Proof.
  intros Hrest. induction stem as [|x stem IH]; cbn.
  - now rewrite Hrest, Ascii.eqb_refl.
  - now rewrite IH.
Qed.

Lemma lower_ascii_dot (a : ascii) :
  Str.lower_ascii a = Str.dot -> a = Str.dot.
Proof.
  destruct a as [[] [] [] [] [] [] [] []]; vm_compute; intros H;
    solve [reflexivity | discriminate H].
Qed.

Lemma lower_keeps_dots (s : string) :
  Str.rfind Str.dot (Str.lower s) = None -> Str.rfind Str.dot s = None.
Proof.
  induction s as [|a s IH]; [reflexivity |]. cbn [Str.lower Str.rfind].
  destruct (Str.rfind Str.dot (Str.lower s)); [discriminate |].
  rewrite (IH eq_refl).
  destruct (Ascii.eqb_spec a Str.dot) as [-> | _]; [|reflexivity].
  vm_compute. discriminate.
Qed.

(** The shape of a text that is a recognised extension up to letter case:
    a dot, then letters without a dot. *)
Lemma extension_shape (ext : string) :
  In (Str.lower ext) image_extensions ->
  exists rest,
    ext = String Str.dot rest /\ rest <> "" /\ Str.rfind Str.dot rest = None.
Proof.
  unfold image_extensions. cbn [In]. intros H.
  destruct ext as [|a rest]; [cbn in H; intuition discriminate |].
  cbn [Str.lower] in H.
  assert (Hshape :
            Str.lower_ascii a = Str.dot
            /\ Str.rfind Str.dot (Str.lower rest) = None
            /\ Str.lower rest <> "").
  { destruct H as [H | [H | [H | [H | []]]]]; injection H as Ha Hr;
      rewrite <- Hr; repeat split; try (symmetry; exact Ha); discriminate. }
  destruct Hshape as (Ha & Hnodot & Hne).
  apply lower_ascii_dot in Ha. subst a. exists rest. repeat split.
  - intros ->. now apply Hne.
  - now apply lower_keeps_dots.
Qed.

(** X6.  A name passes the extension filter exactly when it is a stem that
    is not empty followed by [.jpg], [.jpeg], [.png] or [.bmp] in any
    letter case.  So a name that is only an extension, such as [.png], and
    a name without a dot are not image files. *)
Theorem image_files_are_stem_and_extension (name : string) :
  is_image_file name = true
  <-> exists stem ext,
      name = stem +++ ext /\ stem <> ""
      /\ In (Str.lower ext) [".jpg"; ".jpeg"; ".png"; ".bmp"].
Proof.
  rewrite is_image_file_iff. split.
  - unfold PosixPath.suffix.
    destruct (Str.rfind Str.dot name) as [i|];
      [|cbn; intuition discriminate].
    destruct ((0 <? i) && (i <? String.length name - 1))%nat eqn:Hi;
      [|cbn; intuition discriminate].
    intros Hin. exists (String.substring 0 i name), (Str.drop i name).
    split; [now rewrite substring_drop | split; [|exact Hin]].
    apply andb_true_iff in Hi as [Hpos Hlen].
    apply Nat.ltb_lt in Hpos, Hlen.
    destruct i as [|i]; [lia |]. destruct name; [cbn in Hlen; lia | discriminate].
  - intros (stem & ext & -> & Hstem & Hin).
    destruct (extension_shape ext Hin) as (rest & -> & Hrest & Hnodot).
    unfold PosixPath.suffix. rewrite (rfind_append _ stem rest Hnodot).
    replace ((0 <? String.length stem)
             && (String.length stem
                 <? String.length (stem +++ String Str.dot rest) - 1))%nat
      with true.
    + now rewrite drop_append.
    + symmetry. apply andb_true_iff. split; apply Nat.ltb_lt.
      * destruct stem; [contradiction | cbn; lia].
      * rewrite length_append. destruct rest; [contradiction | cbn; lia].
Qed.

(** ** The default pattern *)

Lemma compile_label_pattern :
  Re.compile LABEL_PATTERN
  = Re.Ok (Re.Cat (Re.Group 1 (Re.CharSet [("A"%char, "Z"%char)]))
                  (Re.Lit "_"%char), 1).
Proof. reflexivity. Qed.

Lemma run_label_pattern {X : Type} (x : ascii) (s1 : list ascii)
  (c : Re.captures) (k : list ascii -> Re.captures -> option X) :
  Re.run (Re.Cat (Re.Group 1 (Re.CharSet [("A"%char, "Z"%char)]))
                 (Re.Lit "_"%char)) (x :: s1) c k
  = if is_upper x then
      match s1 with
      | y :: s2 =>
          if Ascii.eqb y "_" then k s2 (Re.set_capture 0 [x] c) else None
      | [] => None
      end
    else None.
Proof.
  cbn [Re.run]. fold (is_upper x). destruct (is_upper x); [|reflexivity].
  change (x :: s1) with ([x] ++ s1). rewrite ReFacts.consumed_app.
  reflexivity.
Qed.

Lemma scan_label_pattern (s : list ascii) :
  option_map snd
    (Re.scan (Re.Cat (Re.Group 1 (Re.CharSet [("A"%char, "Z"%char)]))
                     (Re.Lit "_"%char)) 1 s)
  = option_map (fun x => [Some [x]]) (first_label s).
Proof.
  induction s as [|x s1 IH]; [reflexivity |].
  cbn [Re.scan first_label]. rewrite run_label_pattern.
  destruct s1 as [|y s2].
  - destruct (is_upper x); reflexivity.
  - destruct (is_upper x); cbn [andb]; [|exact IH].
    destruct (Ascii.eqb y "_"); [reflexivity | exact IH].
Qed.

(** X7.  With the default pattern the label extraction never raises: the
    label is the first upper-case ASCII letter of the name that is
    immediately followed by an underscore, as a text of one character, and
    there is no label when the name has no such letter. *)
Theorem default_label_is_first_letter_before_underscore (file_name : string) :
  get_concentration_label re_search_fragment file_name LABEL_PATTERN
  = Return (option_map (fun x => String x "")
                       (first_label (list_ascii_of_string file_name))).
Proof.
  unfold get_concentration_label, re_search_fragment, Re.search.
  rewrite compile_label_pattern.
  pose proof (scan_label_pattern (list_ascii_of_string file_name)) as Hscan.
  destruct (Re.scan _ 1 (list_ascii_of_string file_name)) as [[w c]|];
    destruct (first_label (list_ascii_of_string file_name)) as [x|];
    try discriminate Hscan; [|reflexivity].
  cbn [option_map snd] in Hscan. injection Hscan as ->. reflexivity.
Qed.

(** ** The main block *)



(** ** A pattern without a capturing group *)

(** X9.  When the pattern has no capturing group, a name in which it finds
    a match makes the label extraction raise [IndexError]; an image file
    with such a name, though it decodes, gets no row: the loop body prints
    the diagnostic with the message [no such group] and goes on. *)
Theorem pattern_without_group_drops_the_files_it_matches
  (imread : string -> option Cv.image)
  (re_search : string -> string -> outcome (option Match)) (getcwd : string)
  (root pattern dirpath name : string) (m : Match) (image : Cv.image)
  (st : state) :
  re_search pattern name = Return (Some m) ->
  groups m = [] ->
  is_image_file name = true ->
  imread (PosixPath.join dirpath name) = Some image ->
  get_concentration_label re_search name pattern
  = Raise (IndexError "no such group")
  /\ process_file imread re_search getcwd root pattern dirpath name st
     = (Return tt,
        mkState (data st) (opened st ++ [PosixPath.join dirpath name])
                (stdout st
                   ++ [Failed ("处理图像 " +++ PosixPath.join dirpath name
                               +++ " 时出错: no such group")])
                (written st)).
Proof.
  intros Hsearch Hgroups Hext Himg.
  assert (Hlabel : get_concentration_label re_search name pattern
                   = Raise (IndexError "no such group")).
  { unfold get_concentration_label. rewrite Hsearch. cbn [obind].
    unfold group. now rewrite Hgroups. }
  split; [exact Hlabel |].
  apply (skipped_file_state imread re_search getcwd root pattern dirpath name
           (IndexError "no such group") st Hext).
  exact (raises_label _ _ _ _ _ _ _ image _ Himg Hlabel).
Qed.

Lemma pattern_without_group_witness :
  process_file example_imread re_search_fragment "/home/user" "/data" "[A-Z]_"
               "/data" "B_002.jpg" initial_state
  = (Return tt,
     mkState [] ["/data/B_002.jpg"]
             [Failed "处理图像 /data/B_002.jpg 时出错: no such group"] []).
Proof.
  exact (proj2 (pattern_without_group_drops_the_files_it_matches example_imread
                  re_search_fragment "/home/user" "/data" "[A-Z]_" "/data"
                  "B_002.jpg" (mkMatch "B_" []) (Cv.solid 2 3 10 20 30)
                  initial_state eq_refl eq_refl eq_refl eq_refl)).
Defined.

(** ** Bounds on the means *)

Lemma sum_uint8_bounds (l : list Z) :
  Forall (fun v => uint8 v = true) l ->
  (0 <= fold_right Z.add 0 l <= 255 * Z.of_nat (List.length l))%Z.
Proof.
  induction 1 as [|v l Hv _ IH]; [cbn; lia |].
  unfold uint8 in Hv. apply andb_true_iff in Hv as [Hlo Hhi].
  apply Z.leb_le in Hlo, Hhi. cbn [fold_right List.length]. lia.
Qed.

Lemma component_mean_bounds (f : Cv.pixel -> Z) (image : Cv.image) :
  Forall (fun p => uint8 (f p) = true) (List.concat image) ->
  List.concat image <> [] ->
  (inject_Z 0 <= component_mean f image)%Q
  /\ (component_mean f image <= inject_Z 255)%Q.
Proof.
  intros Hpixels Hne. unfold component_mean. cbn [this Q2Qc].
  rewrite Qred_correct.
  assert (Hsum := sum_uint8_bounds (map f (List.concat image))).
  rewrite length_map in Hsum.
  assert (Hall : Forall (fun v => uint8 v = true) (map f (List.concat image))).
  { apply Forall_map. exact Hpixels. }
  specialize (Hsum Hall).
  destruct (List.length (List.concat image)) as [|n] eqn:Hn.
  - destruct (List.concat image); [contradiction | discriminate].
  - unfold Qle, inject_Z. cbn [Qnum Qden].
    rewrite <- Pos.of_nat_succ, Zpos_P_of_succ_nat. lia.
Qed.

(** X10.  On an image that has at least one pixel and whose stored values
    are 8-bit values, the three means returned by [extract_rgb_features]
    lie between 0 and 255. *)
Theorem channel_means_are_within_the_pixel_range
  (imread : string -> option Cv.image) (image_path : string) (image : Cv.image)
  (st : state) :
  imread image_path = Some image ->
  uint8_image image = true ->
  List.concat image <> [] ->
  exists blue_mean green_mean red_mean : Qc,
    result (extract_rgb_features imread image_path) st
    = Return (blue_mean, green_mean, red_mean)
    /\ (inject_Z 0 <= blue_mean)%Q /\ (blue_mean <= inject_Z 255)%Q
    /\ (inject_Z 0 <= green_mean)%Q /\ (green_mean <= inject_Z 255)%Q
    /\ (inject_Z 0 <= red_mean)%Q /\ (red_mean <= inject_Z 255)%Q.
Proof.
  intros Himg Hvalid Hne.
  assert (Hpixels :
            Forall (fun p : Cv.pixel =>
                      uint8 (fst (fst p)) && uint8 (snd (fst p)) && uint8 (snd p)
                      = true) (List.concat image)).
  { unfold uint8_image in Hvalid. rewrite forallb_forall in Hvalid.
    apply Forall_forall. intros p Hp. apply in_concat in Hp as [row [Hrow Hp]].
    specialize (Hvalid row Hrow). rewrite forallb_forall in Hvalid.
    now apply Hvalid. }
  exists (component_mean (fun p => fst (fst p)) image),
    (component_mean (fun p => snd (fst p)) image),
    (component_mean (fun p => snd p) image).
  split.
  - unfold result. rewrite extract_rgb_features_run, Himg. cbn [fst].
    destruct (mean_split image) as (Hb & Hg & Hr). now rewrite Hb, Hg, Hr.
  - assert (Hb := component_mean_bounds (fun p => fst (fst p)) image).
    assert (Hg := component_mean_bounds (fun p => snd (fst p)) image).
    assert (Hr := component_mean_bounds (fun p => snd p) image).
    repeat split;
      first [apply Hb | apply Hg | apply Hr]; try exact Hne;
      (eapply Forall_impl; [|exact Hpixels]); cbn beta; intros p Hp;
      apply andb_true_iff in Hp as [Hp H3]; apply andb_true_iff in Hp as [H1 H2];
      assumption.
Qed.

Lemma channel_means_range_witness :
  exists blue_mean green_mean red_mean : Qc,
    result (extract_rgb_features example_imread "/data/sub/sample.png")
           initial_state
    = Return (blue_mean, green_mean, red_mean)
    /\ (inject_Z 0 <= blue_mean)%Q /\ (blue_mean <= inject_Z 255)%Q
    /\ (inject_Z 0 <= green_mean)%Q /\ (green_mean <= inject_Z 255)%Q
    /\ (inject_Z 0 <= red_mean)%Q /\ (red_mean <= inject_Z 255)%Q.
Proof.
  refine (channel_means_are_within_the_pixel_range example_imread
            "/data/sub/sample.png" (Cv.solid 1 1 255 0 7) initial_state
            eq_refl eq_refl _).
  discriminate.
Defined.

(** ** The further properties on the example file system *)

Lemma rows_follow_the_walk_witness :
  map filename (data (exec (example_run "([A-Z])_") initial_state))
  = ["B_002.jpg"; "sample.png"; "x.PNG"].
Proof.
  refine (proj1 (rows_follow_the_walk example_imread re_search_fragment
                   "/home/user" example_tree "/data" "rgb_features.csv"
                   "([A-Z])_" initial_state eq_refl _)).
  cbn [located example_tree map flat_map app fst snd In].
  intros q H _. repeat (destruct H as [H | H]; [subst q; reflexivity |]).
  contradiction.
Defined.

Lemma every_row_witness :
  exists names image,
    In (names, "x.PNG") (located example_tree)
    /\ is_image_file "x.PNG" = true
    /\ example_imread (PosixPath.join (path_of "/data" names) "x.PNG") = Some image
    /\ In (PosixPath.join (path_of "/data" names) "x.PNG")
          (opened (exec (example_run "([A-Z])_") initial_state))
    /\ record_of "x.PNG" "sub/dir" (Cv.solid 4 4 1 2 3) None
       = record_of "x.PNG" "sub/dir" image None
    /\ get_concentration_label re_search_fragment "x.PNG" "([A-Z])_" = Return None
    /\ PosixPath.relpath "/home/user" (path_of "/data" names) "/data"
       = Return "sub/dir"
    /\ "sub/dir" <> "".
Proof.
  refine (every_row_comes_from_a_decoded_file example_imread re_search_fragment
            "/home/user" example_tree "/data" "rgb_features.csv" "([A-Z])_"
            initial_state (record_of "x.PNG" "sub/dir" (Cv.solid 4 4 1 2 3) None)
            eq_refl _).
  vm_compute. do 2 right. left. reflexivity.
Defined.

Lemma one_console_line_witness :
  exists lines summary,
    stdout (exec (example_run "([A-Z])_") initial_state)
    = stdout initial_state ++ lines ++ summary
    /\ List.length lines
       = List.length (filter (fun q : list string * string => is_image_file (snd q))
                             (located example_tree))
    /\ filter is_progress lines
       = map progress_line (data (exec (example_run "([A-Z])_") initial_state))
    /\ List.length (filter is_diagnostic lines)
       = List.length (filter (fun q : list string * string => is_image_file (snd q))
                             (located example_tree))
         - List.length (data (exec (example_run "([A-Z])_") initial_state))
    /\ Forall (fun l => is_progress l = false /\ is_diagnostic l = false) summary.
Proof.
  exact (one_console_line_per_image_file example_imread re_search_fragment
           "/home/user" example_tree "/data" "rgb_features.csv" "([A-Z])_"
           initial_state eq_refl).
Defined.


Lemma file_without_row_witness :
  data (exec (for_each (["notes.txt"] ++ "broken.bmp" :: ["sample.png"])
                (process_file example_imread re_search_fragment "/home/user"
                              "/data" "([A-Z])_" "/data/sub")) initial_state)
  = data (exec (for_each (["notes.txt"] ++ ["sample.png"])
                  (process_file example_imread re_search_fragment "/home/user"
                                "/data" "([A-Z])_" "/data/sub")) initial_state).
Proof.
  refine (a_file_without_row_leaves_the_other_rows example_imread
            re_search_fragment "/home/user" "/data" "([A-Z])_" "/data/sub"
            "broken.bmp" ["notes.txt"] ["sample.png"] initial_state _).
  right. eexists. apply raises_decoding. reflexivity.
Defined.

Lemma image_file_name_witness : is_image_file "scan.01.JPeG" = true.
Proof.
  apply (proj2 (image_files_are_stem_and_extension "scan.01.JPeG")).
  exists "scan.01", ".JPeG". repeat split; [discriminate |].
  right. left. reflexivity.
Defined.

(** ** The means do not depend on where the pixels are *)

Lemma sum_permutation (l1 l2 : list Z) :
  Permutation l1 l2 -> fold_right Z.add 0%Z l1 = fold_right Z.add 0%Z l2.
Proof.
  induction 1 as [|x l1 l2 _ IH|x y l|l1 l2 l3 _ IH1 _ IH2]; cbn [fold_right].
  - reflexivity.
  - now rewrite IH.
  - lia.
  - now rewrite IH1.
Qed.

Lemma component_mean_permutation (f : Cv.pixel -> Z) (image1 image2 : Cv.image) :
  Permutation (List.concat image1) (List.concat image2) ->
  component_mean f image1 = component_mean f image2.
Proof.
  intros Hperm. unfold component_mean.
  rewrite (Permutation_length Hperm).
  now rewrite (sum_permutation _ _ (Permutation_map f Hperm)).
Qed.

(** X11.  Two images that hold the same pixels, arranged differently (an
    image and its mirror image, or the same pixels in another shape), get
    the same three means. *)
Theorem means_do_not_depend_on_pixel_positions
  (imread : string -> option Cv.image) (path1 path2 : string)
  (image1 image2 : Cv.image) (st1 st2 : state) :
  imread path1 = Some image1 ->
  imread path2 = Some image2 ->
  Permutation (List.concat image1) (List.concat image2) ->
  result (extract_rgb_features imread path1) st1
  = result (extract_rgb_features imread path2) st2.
Proof.
  intros Himg1 Himg2 Hperm. unfold result.
  rewrite !extract_rgb_features_run, Himg1, Himg2. cbn [fst].
  destruct (mean_split image1) as (Hb1 & Hg1 & Hr1).
  destruct (mean_split image2) as (Hb2 & Hg2 & Hr2).
  rewrite Hb1, Hg1, Hr1, Hb2, Hg2, Hr2.
  now rewrite !(component_mean_permutation _ image1 image2 Hperm).
Qed.

Lemma mirror_image_witness :
  let imread := fun path : string =>
                  if String.eqb path "left.png"
                  then Some [[(1, 2, 3); (4, 5, 6)]%Z]
                  else Some [[(4, 5, 6); (1, 2, 3)]%Z] in
  result (extract_rgb_features imread "left.png") initial_state
  = result (extract_rgb_features imread "right.png") initial_state.
Proof.
  cbv zeta.
  refine (means_do_not_depend_on_pixel_positions _ "left.png" "right.png"
            [[(1, 2, 3); (4, 5, 6)]%Z] [[(4, 5, 6); (1, 2, 3)]%Z]
            initial_state initial_state eq_refl eq_refl _).
  apply perm_swap.
Defined.

(** ** The files that are opened lie below the root *)

Lemma join_extends (a b : string) :
  Str.startswith Str.slash b = false -> exists t, PosixPath.join a b = a +++ t.
Proof.
  intros Hb. unfold PosixPath.join. rewrite Hb.
  destruct (_ || _); eauto.
Qed.

Lemma path_of_extends (names : list string) :
  Forall (fun n => valid_name n = true) names ->
  forall root, exists t, path_of root names = root +++ t.
Proof.
  induction 1 as [|n names Hn _ IH]; intros root; cbn [path_of fold_left].
  - exists "". clear. induction root as [|x root IH]; cbn; [reflexivity |].
    now rewrite <- IH.
  - destruct (join_extends root n) as [t Ht].
    { apply PathFacts.plain_not_absolute. now apply PathFacts.valid_name_plain. }
    destruct (IH (PosixPath.join root n)) as [t' Ht'].
    exists (t +++ t'). unfold path_of in Ht'.
    now rewrite Ht', Ht, PathFacts.append_assoc.
Qed.

(** X12.  The run opens no file outside the root directory: when the names
    in the tree are names of directory entries, every path that the run
    opens is the root path followed by something. *)
Theorem only_paths_below_the_root_are_opened
  (imread : string -> option Cv.image)
  (re_search : string -> string -> outcome (option Match)) (getcwd : string)
  (fs : dir) (root output_csv pattern : string) (st : state) (path : string) :
  Str.is_empty root = false ->
  (forall names f,
      In (names, f) (located fs) ->
      Forall (fun n => valid_name n = true) names /\ valid_name f = true) ->
  In path
     (opened (exec (process_images_in_directory imread re_search getcwd fs root
                      output_csv pattern) st)) ->
  In path (opened st) \/ exists rest, path = root +++ rest.
Proof.
  intros Hroot Hnames Hin. unfold exec in Hin.
  rewrite run_closed_form in Hin. cbn [snd] in Hin.
  assert (Hopened : forall s, opened (after_export output_csv s) = opened s).
  { intros s. unfold after_export. now destruct (data s). }
  rewrite Hopened, traversal_opened, (visited_located root fs Hroot) in Hin.
  cbn [opened] in Hin. apply in_app_or in Hin as [Hin | Hin]; [now left | right].
  apply in_map_iff in Hin as [[dirpath f] [<- Hin]].
  apply filter_In in Hin as [Hin _].
  apply in_map_iff in Hin as [[names f'] [Heq Hloc]].
  cbn [fst snd] in *. injection Heq as <- <-.
  destruct (Hnames names f' Hloc) as [Hdirs Hfile].
  destruct (path_of_extends names Hdirs root) as [t Ht].
  destruct (join_extends (path_of root names) f') as [t' Ht'].
  { apply PathFacts.plain_not_absolute. now apply PathFacts.valid_name_plain. }
  exists (t +++ t'). now rewrite Ht', Ht, PathFacts.append_assoc.
Qed.

Lemma opened_below_root_witness :
  In "/data/sub/dir/x.PNG" (opened initial_state)
  \/ exists rest, "/data/sub/dir/x.PNG" = "/data" +++ rest.
Proof.
  refine (only_paths_below_the_root_are_opened example_imread re_search_fragment
            "/home/user" example_tree "/data" "rgb_features.csv" "([A-Z])_"
            initial_state "/data/sub/dir/x.PNG" eq_refl _ _).
  - cbn [located example_tree map flat_map app fst snd In].
    intros names f H.
    repeat (destruct H as [H | H];
            [injection H as <- <-; split; [repeat constructor | reflexivity] |]).
    contradiction.
  - vm_compute. do 3 right. left. reflexivity.
Defined.

(** ** A label is a part of the file name *)

Module CaptureFacts.

Import Re.

Lemma rest_of_refl (s : list ascii) : rest_of s s.
Proof. now exists []. Qed.

Lemma rest_of_trans (s2 s1 s : list ascii) :
  rest_of s2 s1 -> rest_of s1 s -> rest_of s2 s.
Proof.
  intros [w2 ->] [w1 ->]. exists (w1 ++ w2). now rewrite app_assoc.
Qed.

Lemma set_capture_within (text : list ascii) (n : nat) (w : list ascii)
  (c : captures) :
  (exists before after, text = before ++ w ++ after) ->
  captures_within text c -> captures_within text (set_capture n w c).
Proof.
  intros Hw Hc. revert n.
  induction Hc as [|g c Hg Hc IH]; intros [|n]; cbn [set_capture].
  - constructor.
  - constructor.
  - constructor; [exact Hw | exact Hc].
  - constructor; [exact Hg | apply IH].
Qed.

Lemma consumed_within (text s s1 : list ascii) :
  rest_of s text -> rest_of s1 s ->
  exists before after, text = before ++ consumed s s1 ++ after.
Proof.
  intros [p ->] [w ->]. rewrite ReFacts.consumed_app. now exists p, s1.
Qed.

Lemma iterate_within {X : Type} (text : list ascii)
  (body : list ascii -> captures -> (list ascii -> captures -> option X) -> option X) :
  (forall s c k x,
      rest_of s text -> captures_within text c -> body s c k = Some x ->
      exists s1 c1, rest_of s1 s /\ captures_within text c1 /\ k s1 c1 = Some x) ->
  forall fuel s c k x,
    rest_of s text -> captures_within text c ->
    iterate body fuel s c k = Some x ->
    exists s1 c1, rest_of s1 s /\ captures_within text c1 /\ k s1 c1 = Some x.
Proof.
  intros Hbody. induction fuel as [|fuel IH]; intros s c k x Hs Hc;
    cbn [iterate].
  - intros Hk. exists s, c. auto using rest_of_refl.
  - destruct (body s c _) as [x0|] eqn:Hrun.
    + intros Hx. injection Hx as ->.
      destruct (Hbody _ _ _ _ Hs Hc Hrun) as (s1 & c1 & Hs1 & Hc1 & Hk).
      destruct (List.length s1 <? List.length s)%nat; [|discriminate].
      destruct (IH _ _ _ _ (rest_of_trans _ _ _ Hs1 Hs) Hc1 Hk)
        as (s2 & c2 & Hs2 & Hc2 & Hk2).
      exists s2, c2. eauto using rest_of_trans.
    + intros Hk. exists s, c. auto using rest_of_refl.
Qed.

Lemma run_within (text : list ascii) (r : regex) :
  forall (X : Type) s c (k : list ascii -> captures -> option X) x,
    rest_of s text -> captures_within text c ->
    run r s c k = Some x ->
    exists s1 c1, rest_of s1 s /\ captures_within text c1 /\ k s1 c1 = Some x.
Proof.
  induction r as [|a|ranges|r1 IH1 r2 IH2|r1 IH1 r2 IH2|r1 IH1|n r1 IH1];
    intros X s c k x Hs Hc; cbn [run].
  - intros Hk. exists s, c. auto using rest_of_refl.
  - destruct s as [|y s1]; [discriminate |].
    destruct (Ascii.eqb y a); [|discriminate]. intros Hk.
    exists s1, c. repeat split; [now exists [y] | assumption ..].
  - destruct s as [|y s1]; [discriminate |].
    destruct (in_ranges y ranges); [|discriminate]. intros Hk.
    exists s1, c. repeat split; [now exists [y] | assumption ..].
  - intros Hrun.
    destruct (IH1 _ _ _ _ _ Hs Hc Hrun) as (s1 & c1 & Hs1 & Hc1 & Hrun2).
    destruct (IH2 _ _ _ _ _ (rest_of_trans _ _ _ Hs1 Hs) Hc1 Hrun2)
      as (s2 & c2 & Hs2 & Hc2 & Hk).
    exists s2, c2. eauto using rest_of_trans.
  - destruct (run r1 s c k) as [x0|] eqn:Hrun1.
    + intros Hx. injection Hx as ->. now apply (IH1 _ _ _ _ _ Hs Hc Hrun1).
    + intros Hrun2. now apply (IH2 _ _ _ _ _ Hs Hc Hrun2).
  - apply (iterate_within text (run r1)); [|assumption ..].
    intros s0 c0 k0 x0. apply IH1.
  - intros Hrun.
    destruct (IH1 _ _ _ _ _ Hs Hc Hrun) as (s1 & c1 & Hs1 & Hc1 & Hk).
    exists s1, (set_capture (n - 1) (consumed s s1) c1). repeat split.
    + exact Hs1.
    + apply set_capture_within; [|exact Hc1]. now apply consumed_within.
    + exact Hk.
Qed.

Lemma scan_within (text : list ascii) (r : regex) (ngroups : nat) :
  forall s m,
    rest_of s text -> scan r ngroups s = Some m -> captures_within text (snd m).
Proof.
  assert (Hinit : captures_within text (repeat None ngroups)).
  { unfold captures_within. induction ngroups; cbn; constructor; auto. }
  assert (Hhere :
            forall s m,
              rest_of s text ->
              run r s (repeat None ngroups)
                  (fun s1 c1 => Some (consumed s s1, c1)) = Some m ->
              captures_within text (snd m)).
  { intros s m Hs Hrun.
    destruct (run_within text r _ _ _ _ _ Hs Hinit Hrun)
      as (s1 & c1 & _ & Hc1 & Hk).
    injection Hk as <-. exact Hc1. }
  induction s as [|a s IH]; intros m Hs; cbn [scan].
  - destruct (run r [] _ _) as [m0|] eqn:Hrun; [|discriminate].
    intros Hm. injection Hm as <-. now apply (Hhere [] m0).
  - destruct (run r (a :: s) _ _) as [m0|] eqn:Hrun.
    + intros Hm. injection Hm as <-. now apply (Hhere (a :: s) m0).
    + apply IH. apply (rest_of_trans _ (a :: s)); [now exists [a] | exact Hs].
Qed.

Lemma string_of_list_ascii_app (l1 l2 : list ascii) :
  string_of_list_ascii (l1 ++ l2)
  = string_of_list_ascii l1 +++ string_of_list_ascii l2.
Proof. induction l1 as [|a l1 IH]; cbn; [reflexivity | now rewrite IH]. Qed.

End CaptureFacts.

(** X13.  Whatever the pattern of the fragment, a label is a part of the
    file name: when the label extraction returns a text, the name is some
    text, then the label, then some text. *)
Theorem label_is_part_of_the_file_name
  (pattern file_name label : string) (r : Re.regex) (ngroups : nat) :
  Re.compile pattern = Re.Ok (r, ngroups) ->
  get_concentration_label re_search_fragment file_name pattern
  = Return (Some label) ->
  exists before after, file_name = before +++ label +++ after.
Proof.
  intros Hcompile.
  unfold get_concentration_label, re_search_fragment, Re.search.
  rewrite Hcompile.
  destruct (Re.scan r ngroups (list_ascii_of_string file_name)) as [m|] eqn:Hscan;
    cbn [option_map obind]; [|discriminate].
  pose proof (CaptureFacts.scan_within (list_ascii_of_string file_name) r ngroups
                _ m (CaptureFacts.rest_of_refl _) Hscan) as Hwithin.
  destruct m as [w c]. cbn [snd] in Hwithin.
  unfold group, Re.to_match. cbn [groups snd nth_error].
  destruct c as [|g c]; cbn [map nth_error]; [discriminate |].
  inversion Hwithin as [|g' c' Hg _]; subst.
  destruct g as [w1|]; cbn [option_map]; [|discriminate].
  intros Hlabel. injection Hlabel as <-.
  destruct Hg as (before & after & Htext).
  exists (string_of_list_ascii before), (string_of_list_ascii after).
  rewrite <- !CaptureFacts.string_of_list_ascii_app, <- Htext.
  now rewrite string_of_list_ascii_of_string.
Qed.

Lemma label_part_witness :
  exists before after, "run7_B_002.jpg" = before +++ "B" +++ after.
Proof.
  exact (label_is_part_of_the_file_name "([A-Z])_" "run7_B_002.jpg" "B" _ 1
           eq_refl eq_refl).
Defined.
